(** * Step scaling policies of the autoscaling construct library

    A shallow embedding of [step-scaling-policy.ts] (class [StepScalingPolicy]
    and [aggregationTypeFromMetric]) together with the interval helpers it
    imports, and the properties of the threshold and step-table derivation.

    Conventions of the embedding.
    - A JavaScript number that the user writes (an interval bound, a change)
      is an integer of [Z]; an optional field [x?: number] is an [option Z],
      [None] standing for [undefined].
    - The result of an arithmetic expression is a [number]: a finite value
      or [NaN], which is what [-] yields when an operand is [undefined].
    - [throw] is the [Throw] branch of the [result] monad; a property read
      on [undefined] (an array read out of range followed by a field access)
      throws [TypeError]. *)

From stdpp Require Import base option list strings gmap.
From Stdlib Require Import ZArith Lia Ascii.

(** ** Exceptions and the result monad *)

Inductive exn : Type :=
| Error (message : string)      (* [throw new Error(message)] *)
| TypeError                     (* field access on [undefined] *)
| AmbiguousOpenBoundary         (* raised by the interval normalizer *)
| GapOrOverlapDetected.         (* raised by the interval normalizer *)

Inductive result (A : Type) : Type :=
| Return (a : A)
| Throw (e : exn).

Arguments Return {A} a.
Arguments Throw {A} e.

#[global] Instance result_ret : MRet result := λ A a, Return a.

#[global] Instance result_bind : MBind result := λ A B f m,
  match m with
  | Return a => f a
  | Throw e => Throw e
  end.

(** ** JavaScript numbers produced by arithmetic *)

Inductive number : Type :=
| Num (z : Z)
| NaN.

(** [a - b] on two values of type [number | undefined]. *)
Definition sub (a b : option Z) : number :=
  match a, b with
  | Some x, Some y => Num (x - y)
  | _, _ => NaN
  end.

(** [arr[i]] followed by a field access: out of range is a [TypeError]. *)
Definition getIndex {A : Type} (arr : list A) (i : nat) : result A :=
  match arr !! i with
  | Some a => Return a
  | None => Throw TypeError
  end.

(** ** interval-types: the input unit *)

Record ScalingInterval : Type := {
  lower : option Z;
  upper : option Z;
  change : Z
}.

(** Modelled from the spec: the type of a normalized interval is declared in
    [interval-utils.ts], which is not among the sources.  The spec's
    NormalizedInterval has the fields of a [ScalingInterval]; its two bounds
    are numbers, except that the two outermost intervals keep their open
    bound, "represented as absent in the output for the extremes". *)
Abbreviation NormalizedInterval := ScalingInterval.

(** ** interval-utils: the interface the policy imports *)

Record AlarmThresholdResult : Type := {
  lowerAlarmIntervalIndex : option nat;
  upperAlarmIntervalIndex : option nat
}.

(** [import { findAlarmThresholds, normalizeIntervals } from './interval-utils'].
    The policy is written against these two functions only. *)
Class IntervalUtils : Type := {
  normalizeIntervals : list ScalingInterval → bool → result (list NormalizedInterval);
  findAlarmThresholds : list NormalizedInterval → AlarmThresholdResult
}.

(** ** interval-utils as the specification describes it *)

Module Spec.

Definition openLowerCount (steps : list ScalingInterval) : nat :=
  length (filter (λ s, lower s = None) steps).

Definition openUpperCount (steps : list ScalingInterval) : nat :=
  length (filter (λ s, upper s = None) steps).

(** The value an interval is sorted by: [lower] if present, else [upper];
    [None] is minus infinity (an interval open on both sides). *)
Definition sortKey (s : ScalingInterval) : option Z :=
  match lower s with
  | Some l => Some l
  | None => upper s
  end.

Definition keyLeb (a b : option Z) : bool :=
  match a, b with
  | None, _ => true
  | Some _, None => false
  | Some x, Some y => (x <=? y)%Z
  end.

(** Stable insertion: [s] stood before every element of [sorted] in the
    input, so it stays before the elements of equal key. *)
Fixpoint insertInterval (s : ScalingInterval) (sorted : list ScalingInterval)
  : list ScalingInterval :=
  match sorted with
  | [] => [s]
  | t :: rest =>
      if keyLeb (sortKey s) (sortKey t) then s :: t :: rest
      else t :: insertInterval s rest
  end.

Definition sortIntervals (steps : list ScalingInterval) : list ScalingInterval :=
  foldr insertInterval [] steps.

(** Step 2 of the algorithm: a missing [upper] is the next interval's
    [lower], a missing [lower] is the previous interval's [upper].  [prev]
    is the interval just written, [None] at the first one. *)
Fixpoint fillBounds (prev : option ScalingInterval) (steps : list ScalingInterval)
  : list NormalizedInterval :=
  match steps with
  | [] => []
  | s :: rest =>
      let up := match upper s with
                | Some u => Some u
                | None => next ← head rest; lower next
                end in
      let lo := match lower s with
                | Some l => Some l
                | None => p ← prev; upper p
                end in
      let s' := {| lower := lo; upper := up; change := change s |} in
      s' :: fillBounds (Some s') rest
  end.

(** Step 4: each interval's [upper] equals the next interval's [lower]. *)
Fixpoint contiguous (ivs : list NormalizedInterval) : bool :=
  match ivs with
  | a :: (b :: _) as rest => bool_decide (upper a = lower b) && contiguous rest
  | _ => true
  end.

(** Modelled from the spec: [normalizeIntervals] of [interval-utils.ts],
    which is not among the sources.  Section 4.1: more than one open lower
    or open upper bound is a configuration error; the intervals are sorted
    by their defined boundary value, stably; each missing bound is filled
    from the neighbour; the changes pass through whatever the flag is; a
    sequence that is not contiguous is a configuration error.  The check
    for two intervals at least "lives in the caller". *)
Definition normalize (steps : list ScalingInterval) (absolute : bool)
  : result (list NormalizedInterval) :=
  if bool_decide (1 < openLowerCount steps ∨ 1 < openUpperCount steps)
  then Throw AmbiguousOpenBoundary
  else
    let sorted := sortIntervals steps in
    let filled := fillBounds None sorted in
    let resolved := if absolute then filled else filled in
    if contiguous resolved then Return resolved
    else Throw GapOrOverlapDetected.

(** Zero lies in the half-open range [[lower, upper)], an absent bound
    being infinite. *)
Definition straddlesZero (iv : NormalizedInterval) : Prop :=
  from_option (λ l, (l ≤ 0)%Z) True (lower iv) ∧
  from_option (λ u, (0 < u)%Z) True (upper iv).

#[global] Instance straddlesZero_dec iv : Decision (straddlesZero iv).
Proof.
  unfold straddlesZero.
  destruct (lower iv), (upper iv); simpl; apply _.
Defined.

(** The neutral interval: the interval whose change is zero, and when
    there is none "the interval whose bounds straddle zero". *)
Definition neutralIndex (ivs : list NormalizedInterval) : option nat :=
  match list_find (λ iv, change iv = 0%Z) ivs with
  | Some (n, _) => Some n
  | None => fst <$> list_find straddlesZero ivs
  end.

(** The neighbour at index [i] gets an alarm when it exists and its
    change is not zero. *)
Definition alarmAt (ivs : list NormalizedInterval) (i : nat) : option nat :=
  match ivs !! i with
  | Some iv => if bool_decide (change iv ≠ 0%Z) then Some i else None
  | None => None
  end.

(** Modelled from the spec: [findAlarmThresholds] of [interval-utils.ts]
    (the spec's deriveThresholds), which is not among the sources.
    Section 4.2: the lower alarm interval is the interval immediately
    below the neutral one, if it exists with a change that is not zero;
    the upper alarm interval is the one immediately above, likewise. *)
Definition deriveThresholds (ivs : list NormalizedInterval) : AlarmThresholdResult :=
  match neutralIndex ivs with
  | None => {| lowerAlarmIntervalIndex := None; upperAlarmIntervalIndex := None |}
  | Some n =>
      {| lowerAlarmIntervalIndex :=
           match n with
           | O => None
           | S m => alarmAt ivs m
           end;
         upperAlarmIntervalIndex := alarmAt ivs (S n) |}
  end.

End Spec.

(** The helpers of the specification as an implementation of the import. *)
Definition specIntervalUtils : IntervalUtils := {|
  normalizeIntervals := Spec.normalize;
  findAlarmThresholds := Spec.deriveThresholds
|}.

(** ** cloudwatch: metrics and alarms as far as the policy uses them *)

Module cloudwatch.

Record Metric : Type := {
  namespace : string;
  metricName : string;
  statistic : string;
  periodSec : Z
}.

(** Modelled from the spec: [Metric.with] belongs to the cloudwatch
    package, which is not among the sources.  [metric.with({ periodSec })]
    is a copy of the metric in which the given property replaces the
    configured one (section 4.2: a 60-second aggregation period
    "regardless of the metric's configured period"). *)
Definition withPeriodSec (m : Metric) (p : Z) : Metric :=
  {| namespace := namespace m;
     metricName := metricName m;
     statistic := statistic m;
     periodSec := p |}.

Inductive ComparisonOperator : Type :=
| GreaterThanOrEqualToThreshold
| GreaterThanThreshold
| LessThanThreshold
| LessThanOrEqualToThreshold.

(** An alarm is the properties it was created with and the identifiers of
    the actions registered through [onAlarm]. *)
Record Alarm : Type := {
  alarmId : string;
  metric : Metric;
  alarmDescription : string;
  comparisonOperator : ComparisonOperator;
  evaluationPeriods : Z;
  threshold : option Z;
  alarmActions : list string
}.

Definition onAlarm (a : Alarm) (actionId : string) : Alarm :=
  {| alarmId := alarmId a;
     metric := metric a;
     alarmDescription := alarmDescription a;
     comparisonOperator := comparisonOperator a;
     evaluationPeriods := evaluationPeriods a;
     threshold := threshold a;
     alarmActions := alarmActions a ++ [actionId] |}.

End cloudwatch.

(** ** step-scaling-action: the action that carries the step table *)

Inductive AdjustmentType : Type :=
| ChangeInCapacity
| PercentChangeInCapacity
| ExactCapacity.

#[global] Instance AdjustmentType_eq_dec : EqDecision AdjustmentType.
Proof. solve_decision. Defined.

Inductive MetricAggregationType : Type :=
| Average
| Minimum
| Maximum.

Record StepAdjustment : Type := {
  adjustment : Z;
  lowerBound : option number;
  upperBound : option number
}.

Module action.

Record StepScalingActionProps : Type := {
  adjustmentType : option AdjustmentType;
  cooldownSeconds : option Z;
  metricAggregationType : MetricAggregationType;
  minAdjustmentMagnitude : option Z;
  autoScalingGroup : string
}.

(** Modelled from the spec: [StepScalingAction] is declared in
    [step-scaling-action.ts], which is not among the sources.  Sections 3
    and 6: an action holds, besides its properties, "an ordered list of
    StepAdjustment records"; [addAdjustment] appends to it. *)
Record StepScalingAction : Type := {
  actionId : string;
  props : StepScalingActionProps;
  adjustments : list StepAdjustment
}.

Definition new (id : string) (p : StepScalingActionProps) : StepScalingAction :=
  {| actionId := id; props := p; adjustments := [] |}.

Definition addAdjustment (a : StepScalingAction) (adj : StepAdjustment)
  : StepScalingAction :=
  {| actionId := actionId a; props := props a;
     adjustments := adjustments a ++ [adj] |}.

End action.

(** ** step-scaling-policy *)

Record StepScalingPolicyProps : Type := {
  metric : cloudwatch.Metric;
  scalingSteps : list ScalingInterval;
  adjustmentType : option AdjustmentType;
  cooldownSeconds : option Z;
  estimatedInstanceWarmupSeconds : option Z;
  minAdjustmentMagnitude : option Z;
  autoScalingGroup : string
}.

Record StepScalingPolicy : Type := {
  lowerAlarm : option cloudwatch.Alarm;
  lowerAction : option action.StepScalingAction;
  upperAlarm : option cloudwatch.Alarm;
  upperAction : option action.StepScalingAction
}.

Definition unsupportedStatistic (statistic : string) : string :=
  "Cannot only scale on 'Minimum', 'Maximum', 'Average' metrics, got " +:+ statistic.

Definition aggregationTypeFromMetric (metric : cloudwatch.Metric)
  : result MetricAggregationType :=
  if bool_decide (cloudwatch.statistic metric = "Average") then Return Average
  else if bool_decide (cloudwatch.statistic metric = "Minimum") then Return Minimum
  else if bool_decide (cloudwatch.statistic metric = "Maximum") then Return Maximum
  else Throw (Error (unsupportedStatistic (cloudwatch.statistic metric))).

(** [props.adjustmentType || AdjustmentType.ChangeInCapacity]: the members
    of the enumeration are truthy, only [undefined] takes the default. *)
Definition effectiveAdjustmentType (props : StepScalingPolicyProps) : AdjustmentType :=
  default ChangeInCapacity (adjustmentType props).

Definition changesAreAbsolute (props : StepScalingPolicyProps) : bool :=
  bool_decide (effectiveAdjustmentType props = ExactCapacity).

Definition newAction (id : string) (props : StepScalingPolicyProps)
    (agg : MetricAggregationType) : action.StepScalingAction :=
  action.new id
    {| action.adjustmentType := adjustmentType props;
       action.cooldownSeconds := cooldownSeconds props;
       action.metricAggregationType := agg;
       action.minAdjustmentMagnitude := minAdjustmentMagnitude props;
       action.autoScalingGroup := autoScalingGroup props |}.

(** [for (let i = alarms.lowerAlarmIntervalIndex; i >= 0; i--)] *)
Fixpoint lowerSteps (intervals : list NormalizedInterval) (threshold : option Z)
    (i : nat) (act : action.StepScalingAction) : result action.StepScalingAction :=
  iv ← getIndex intervals i;
  let act' := action.addAdjustment act
    {| adjustment := change iv;
       lowerBound := if bool_decide (i ≠ 0) then Some (sub (lower iv) threshold)
                     else None;
       upperBound := Some (sub (upper iv) threshold) |} in
  match i with
  | O => mret act'
  | S j => lowerSteps intervals threshold j act'
  end.

(** [for (let i = alarms.upperAlarmIntervalIndex; i < intervals.length; i++)],
    [n] being the number of iterations left, [intervals.length - i].  The
    body runs with [i < intervals.length] only, where [intervals.length - 1]
    is not negative. *)
Fixpoint upperSteps (intervals : list NormalizedInterval) (threshold : option Z)
    (n i : nat) (act : action.StepScalingAction) : result action.StepScalingAction :=
  match n with
  | O => mret act
  | S n' =>
      iv ← getIndex intervals i;
      let act' := action.addAdjustment act
        {| adjustment := change iv;
           lowerBound := Some (sub (lower iv) threshold);
           upperBound := if bool_decide (i ≠ length intervals - 1)
                         then Some (sub (upper iv) threshold)
                         else None |} in
      upperSteps intervals threshold n' (S i) act'
  end.

(** The branch [if (alarms.lowerAlarmIntervalIndex !== undefined)]. *)
Definition lowerBranch (props : StepScalingPolicyProps)
    (intervals : list NormalizedInterval) (index : option nat)
  : result (option cloudwatch.Alarm * option action.StepScalingAction) :=
  match index with
  | None => mret (None, None)
  | Some idx =>
      iv ← getIndex intervals idx;
      let threshold := upper iv in
      agg ← aggregationTypeFromMetric (metric props);
      act ← lowerSteps intervals threshold idx (newAction "LowerPolicy" props agg);
      let alarm :=
        {| cloudwatch.alarmId := "LowerAlarm";
           cloudwatch.metric := cloudwatch.withPeriodSec (metric props) 60;
           cloudwatch.alarmDescription := "Lower threshold scaling alarm";
           cloudwatch.comparisonOperator := cloudwatch.LessThanOrEqualToThreshold;
           cloudwatch.evaluationPeriods := 1;
           cloudwatch.threshold := threshold;
           cloudwatch.alarmActions := [] |} in
      mret (Some (cloudwatch.onAlarm alarm (action.actionId act)), Some act)
  end.

(** The branch [if (alarms.upperAlarmIntervalIndex !== undefined)]. *)
Definition upperBranch (props : StepScalingPolicyProps)
    (intervals : list NormalizedInterval) (index : option nat)
  : result (option cloudwatch.Alarm * option action.StepScalingAction) :=
  match index with
  | None => mret (None, None)
  | Some idx =>
      iv ← getIndex intervals idx;
      let threshold := lower iv in
      agg ← aggregationTypeFromMetric (metric props);
      act ← upperSteps intervals threshold (length intervals - idx) idx
              (newAction "UpperPolicy" props agg);
      let alarm :=
        {| cloudwatch.alarmId := "UpperAlarm";
           cloudwatch.metric := cloudwatch.withPeriodSec (metric props) 60;
           cloudwatch.alarmDescription := "Upper threshold scaling alarm";
           cloudwatch.comparisonOperator := cloudwatch.GreaterThanOrEqualToThreshold;
           cloudwatch.evaluationPeriods := 1;
           cloudwatch.threshold := threshold;
           cloudwatch.alarmActions := [] |} in
      mret (Some (cloudwatch.onAlarm alarm (action.actionId act)), Some act)
  end.

Arguments lowerBranch : simpl never.
Arguments upperBranch : simpl never.

Definition insufficientIntervals : string :=
  "You must supply at least 2 intervals for autoscaling".

(** The constructor of [StepScalingPolicy].  The construct tree
    ([super(parent, id)] and the parents of the alarms and actions) is left
    out: the policy is the four members the constructor assigns. *)
Definition newStepScalingPolicy `{IntervalUtils} (props : StepScalingPolicyProps)
  : result StepScalingPolicy :=
  if bool_decide (length (scalingSteps props) < 2)
  then Throw (Error insufficientIntervals)
  else
    intervals ← normalizeIntervals (scalingSteps props) (changesAreAbsolute props);
    let alarms := findAlarmThresholds intervals in
    '(lowerAlarm, lowerAction) ← lowerBranch props intervals (lowerAlarmIntervalIndex alarms);
    '(upperAlarm, upperAction) ← upperBranch props intervals (upperAlarmIntervalIndex alarms);
    mret {| lowerAlarm := lowerAlarm; lowerAction := lowerAction;
            upperAlarm := upperAlarm; upperAction := upperAction |}.

(** The example of the specification. *)
Definition exampleSteps : list ScalingInterval :=
  [ {| lower := None; upper := Some 10%Z; change := (-1)%Z |};
    {| lower := Some 10%Z; upper := Some 50%Z; change := 0%Z |};
    {| lower := Some 50%Z; upper := None; change := 1%Z |} ].

(** ** Predicates the properties are stated with *)

(** [R] relates every two neighbours of [l]. *)
Definition Adjacent {A : Type} (R : A → A → Prop) (l : list A) : Prop :=
  ∀ i a b, l !! i = Some a → l !! S i = Some b → R a b.

(** [intervals[i].upper === intervals[i+1].lower] for every [i]. *)
Definition Contiguous (ivs : list NormalizedInterval) : Prop :=
  Adjacent (λ a b, upper a = lower b) ivs.

(** Ascending by the boundary value the normalizer sorts by. *)
Definition KeySorted (ivs : list ScalingInterval) : Prop :=
  Adjacent (λ a b, Spec.keyLeb (Spec.sortKey a) (Spec.sortKey b) = true) ivs.

(** Every bound is a number, the lower bound of the first interval and the
    upper bound of the last one apart. *)
Definition InnerBoundsFilled (ivs : list NormalizedInterval) : Prop :=
  ∀ i iv, ivs !! i = Some iv →
    (0 < i → is_Some (lower iv)) ∧ (S i < length ivs → is_Some (upper iv)).

(** The step table of the lower alarm whose threshold interval is [k]: the
    interval [i] of [0..k] is entry [k - i], with the bounds taken relative
    to the threshold; the lower bound of interval [0] is open. *)
Definition LowerTable (ivs : list NormalizedInterval) (threshold : option Z)
    (k : nat) (table : list StepAdjustment) : Prop :=
  length table = S k ∧
  ∀ i, i ≤ k → ∃ iv adj,
    ivs !! i = Some iv ∧ table !! (k - i) = Some adj ∧
    adjustment adj = change iv ∧
    upperBound adj = Some (sub (upper iv) threshold) ∧
    lowerBound adj = match i with
                     | O => None
                     | S _ => Some (sub (lower iv) threshold)
                     end.

(** The step table of the upper alarm whose threshold interval is [k]: the
    interval [i] of [k..length-1] is entry [i - k]; the upper bound of the
    last interval is open. *)
Definition UpperTable (ivs : list NormalizedInterval) (threshold : option Z)
    (k : nat) (table : list StepAdjustment) : Prop :=
  length table = length ivs - k ∧
  ∀ i, k ≤ i < length ivs → ∃ iv adj,
    ivs !! i = Some iv ∧ table !! (i - k) = Some adj ∧
    adjustment adj = change iv ∧
    lowerBound adj = Some (sub (lower iv) threshold) ∧
    upperBound adj = if decide (S i = length ivs) then None
                     else Some (sub (upper iv) threshold).

(** A statistic [aggregationTypeFromMetric] has no case for. *)
Definition Unsupported (statistic : string) : Prop :=
  statistic ≠ "Average" ∧ statistic ≠ "Minimum" ∧ statistic ≠ "Maximum".





(** The action [act] after [table] was added to it, one adjustment at a time. *)
Definition extend (act : action.StepScalingAction) (table : list StepAdjustment)
  : action.StepScalingAction :=
  {| action.actionId := action.actionId act;
     action.props := action.props act;
     action.adjustments := action.adjustments act ++ table |}.

(** The alarms the two branches create, [onAlarm] included. *)
Definition lowerAlarmOf (props : StepScalingPolicyProps) (threshold : option Z)
  : cloudwatch.Alarm :=
  {| cloudwatch.alarmId := "LowerAlarm";
     cloudwatch.metric := cloudwatch.withPeriodSec (metric props) 60;
     cloudwatch.alarmDescription := "Lower threshold scaling alarm";
     cloudwatch.comparisonOperator := cloudwatch.LessThanOrEqualToThreshold;
     cloudwatch.evaluationPeriods := 1;
     cloudwatch.threshold := threshold;
     cloudwatch.alarmActions := ["LowerPolicy"] |}.

Definition upperAlarmOf (props : StepScalingPolicyProps) (threshold : option Z)
  : cloudwatch.Alarm :=
  {| cloudwatch.alarmId := "UpperAlarm";
     cloudwatch.metric := cloudwatch.withPeriodSec (metric props) 60;
     cloudwatch.alarmDescription := "Upper threshold scaling alarm";
     cloudwatch.comparisonOperator := cloudwatch.GreaterThanOrEqualToThreshold;
     cloudwatch.evaluationPeriods := 1;
     cloudwatch.threshold := threshold;
     cloudwatch.alarmActions := ["UpperPolicy"] |}.


Definition emptyPolicy : StepScalingPolicy :=
  {| lowerAlarm := None; lowerAction := None;
     upperAlarm := None; upperAction := None |}.

(** ** Concrete inputs *)

Definition cpu (statistic : string) : cloudwatch.Metric :=
  {| cloudwatch.namespace := "AWS/EC2";
     cloudwatch.metricName := "CPUUtilization";
     cloudwatch.statistic := statistic;
     cloudwatch.periodSec := 300 |}.

Definition propsOf (m : cloudwatch.Metric) (steps : list ScalingInterval)
    (t : option AdjustmentType) : StepScalingPolicyProps :=
  {| metric := m;
     scalingSteps := steps;
     adjustmentType := t;
     cooldownSeconds := None;
     estimatedInstanceWarmupSeconds := None;
     minAdjustmentMagnitude := None;
     autoScalingGroup := "ASG" |}.

Definition exampleProps : StepScalingPolicyProps :=
  propsOf (cpu "Average") exampleSteps (Some ChangeInCapacity).

(** Two intervals that never scale: no alarm is derived for them. *)
Definition idleSteps : list ScalingInterval :=
  [ {| lower := None; upper := Some 10%Z; change := 0%Z |};
    {| lower := Some 10%Z; upper := None; change := 0%Z |} ].

Definition idleProps : StepScalingPolicyProps :=
  propsOf (cpu "p99") idleSteps None.

Definition singleStep : list ScalingInterval :=
  [ {| lower := Some 0%Z; upper := None; change := 1%Z |} ].

(** The policy of the example, as the constructor builds it with the
    helpers of the specification. *)
Definition examplePolicy : StepScalingPolicy :=
  Eval vm_compute in
    match @newStepScalingPolicy specIntervalUtils exampleProps with
    | Return p => p
    | Throw _ => emptyPolicy
    end.

(** ** Further predicates on the step scaling policy *)

(** A statistic [aggregationTypeFromMetric] has a case for. *)
Definition Supported (statistic : string) : Prop :=
  statistic = "Average" ∨ statistic = "Minimum" ∨ statistic = "Maximum".

Definition aggregationName (agg : MetricAggregationType) : string :=
  match agg with
  | Average => "Average"
  | Minimum => "Minimum"
  | Maximum => "Maximum"
  end.

(** No interval ends before it starts. *)
Definition Ordered (ivs : list NormalizedInterval) : Prop :=
  ∀ i iv l u, ivs !! i = Some iv → lower iv = Some l → upper iv = Some u → (l ≤ u)%Z.

(** The numbers among the two bounds of a step adjustment. *)
Definition boundsOf (adj : StepAdjustment) : list Z :=
  flat_map (λ b, match b with
                 | Some (Num z) => [z]
                 | _ => []
                 end) [lowerBound adj; upperBound adj].

(** The properties with another [estimatedInstanceWarmupSeconds]. *)
Definition setEstimatedInstanceWarmupSeconds (props : StepScalingPolicyProps)
    (w : option Z) : StepScalingPolicyProps :=
  {| metric := metric props;
     scalingSteps := scalingSteps props;
     adjustmentType := adjustmentType props;
     cooldownSeconds := cooldownSeconds props;
     estimatedInstanceWarmupSeconds := w;
     minAdjustmentMagnitude := minAdjustmentMagnitude props;
     autoScalingGroup := autoScalingGroup props |}.

(** ** apigateway: the path part of a resource

    A string is the sequence of its units.  The braces and the characters
    of the class are single units whatever the encoding, so that the
    outcome of the validation does not depend on it. *)

Module apigateway.

(** [s.startsWith(p)] *)
Definition startsWith (s p : string) : bool := String.prefix p s.

(** [s.endsWith(p)] *)
Definition endsWith (s p : string) : bool :=
  (String.length p <=? String.length s) &&
  String.eqb (String.substring (String.length s - String.length p) (String.length p) s) p.

(** [s.substr(start, length)] for two arguments that are not negative. *)
Definition substr (s : string) (start len : nat) : string :=
  String.substring start len s.

Definition between (lo hi c : ascii) : bool :=
  (nat_of_ascii lo <=? nat_of_ascii c) && (nat_of_ascii c <=? nat_of_ascii hi).

(** The character class [[a-zA-Z0-9\.\_\-]]. *)
Definition isPathChar (c : ascii) : bool :=
  between "a" "z" c || between "A" "Z" c || between "0" "9" c ||
  Ascii.eqb c "." || Ascii.eqb c "_" || Ascii.eqb c "-"%char.

(** [/^[a-zA-Z0-9\.\_\-]+$/.test(s)]: one character of the class at least,
    and nothing else from the start to the end of the input. *)
Definition testPathPart (s : string) : bool :=
  match String.list_ascii_of_string s with
  | [] => false
  | cs => forallb isPathChar cs
  end.

Definition invalidPathPart (part : string) : string :=
  "Resource's path part only allow a-zA-Z0-9._- and curly braces at the beginning and the end: "
  +:+ part.

(** [validateResourcePathPart].  A part that starts with an opening and
    ends with a closing brace has two characters at least, so that
    [part.length - 2] is not negative. *)
Definition validateResourcePathPart (part : string) : result unit :=
  let part :=
    if startsWith part "{" && endsWith part "}"
    then substr part 1 (String.length part - 2)
    else part in
  if negb (testPathPart part) then Throw (Error (invalidPathPart part))
  else Return tt.

End apigateway.

(** ** sqs: references to queues *)

Module sqs.

(** A policy statement of the iam package is kept as the calls its builder
    received, in their order. *)
Inductive StatementCall : Type :=
| addServicePrincipal (service : string)
| addAction (action : string)
| addActions (actions : list string)
| addResource (arn : string)
| addAllResources
| addCondition (operator key value : string).

Abbreviation PolicyStatement := (list StatementCall).

(** The actions a statement names. *)
Definition statementActions (statement : PolicyStatement) : list string :=
  flat_map (λ call, match call with
                    | addAction a => [a]
                    | addActions l => l
                    | _ => []
                    end) statement.

(** The resources a statement names. *)
Definition statementResources (statement : PolicyStatement) : list string :=
  flat_map (λ call, match call with
                    | addResource r => [r]
                    | _ => []
                    end) statement.

(** [QueuePolicy] of [./policy]: the construct under the queue, with the
    statements [document.addStatement] received. *)
Record QueuePolicy : Type := {
  policyId : string;
  document : list PolicyStatement
}.

Definition newQueuePolicy (id : string) : QueuePolicy :=
  {| policyId := id; document := [] |}.

Definition addStatement (p : QueuePolicy) (statement : PolicyStatement) : QueuePolicy :=
  {| policyId := policyId p; document := document p ++ [statement] |}.

(** A principal is the statements [addToPolicy] gave it. *)
Abbreviation Principal := (list PolicyStatement).

(** The encryption keys of the kms package: what the queue asks of them.
    [keyAddToResourcePolicy key statement allowNoOp] is the key after the
    call, or the exception the call throws. *)
Class EncryptionKeyRef (Key : Type) : Type := {
  keyAddToResourcePolicy : Key → PolicyStatement → bool → result Key;
  keyImport : string → Key
}.

Inductive BucketNotificationDestinationType : Type :=
| Lambda
| Queue
| Topic.

(** [dependencies] refers to the policy construct of the queue by its
    identifier, [None] being [undefined]. *)
Record BucketNotificationDestinationProps : Type := {
  arn : string;
  destinationType : BucketNotificationDestinationType;
  dependencies : list (option string)
}.

Record LifecycleHookTargetProps : Type := {
  notificationTargetArn : string
}.

(** The members of a [QueueRef]. *)
Record QueueRef (Key : Type) : Type := {
  queueArn : string;
  queueUrl : string;
  encryptionMasterKey : option Key;
  autoCreatePolicy : bool;
  policy : option QueuePolicy;
  notifyingBuckets : gset string
}.

Arguments queueArn {Key} _.
Arguments queueUrl {Key} _.
Arguments encryptionMasterKey {Key} _.
Arguments autoCreatePolicy {Key} _.
Arguments policy {Key} _.
Arguments notifyingBuckets {Key} _.

Section QueueRef.
Context {Key : Type} `{!EncryptionKeyRef Key}.

Definition setPolicy (q : QueueRef Key) (p : option QueuePolicy) : QueueRef Key :=
  {| queueArn := queueArn q; queueUrl := queueUrl q;
     encryptionMasterKey := encryptionMasterKey q;
     autoCreatePolicy := autoCreatePolicy q;
     policy := p;
     notifyingBuckets := notifyingBuckets q |}.

Definition setEncryptionMasterKey (q : QueueRef Key) (k : option Key) : QueueRef Key :=
  {| queueArn := queueArn q; queueUrl := queueUrl q;
     encryptionMasterKey := k;
     autoCreatePolicy := autoCreatePolicy q;
     policy := policy q;
     notifyingBuckets := notifyingBuckets q |}.

Definition setNotifyingBuckets (q : QueueRef Key) (b : gset string) : QueueRef Key :=
  {| queueArn := queueArn q; queueUrl := queueUrl q;
     encryptionMasterKey := encryptionMasterKey q;
     autoCreatePolicy := autoCreatePolicy q;
     policy := policy q;
     notifyingBuckets := b |}.

(** [addToResourcePolicy]. *)
Definition addToResourcePolicy (statement : PolicyStatement) (q : QueueRef Key)
  : QueueRef Key :=
  let q :=
    if bool_decide (policy q = None) && autoCreatePolicy q
    then setPolicy q (Some (newQueuePolicy "Policy"))
    else q in
  match policy q with
  | Some p => setPolicy q (Some (addStatement p statement))
  | None => q
  end.

(** The statement that lets the bucket send messages to the queue. *)
Definition sendMessageStatement (q : QueueRef Key) (bucketArn : string)
  : PolicyStatement :=
  [ addServicePrincipal "s3.amazonaws.com";
    addAction "sqs:SendMessage";
    addResource (queueArn q);
    addCondition "ArnLike" "aws:SourceArn" bucketArn ].

(** The statement that lets S3 use the key of an encrypted queue. *)
Definition keyStatement : PolicyStatement :=
  [ addServicePrincipal "s3.amazonaws.com";
    addAction "kms:GenerateDataKey";
    addAction "kms:Decrypt";
    addAllResources ].

Definition destinationOf (q : QueueRef Key) : BucketNotificationDestinationProps :=
  {| arn := queueArn q;
     destinationType := Queue;
     dependencies := [ policyId <$> policy q ] |}.

(** [asBucketNotificationDestination]: the value returned or the exception
    thrown, and the queue as the call leaves it. *)
Definition asBucketNotificationDestination (bucketArn bucketId : string)
    (q : QueueRef Key)
  : result BucketNotificationDestinationProps * QueueRef Key :=
  if bool_decide (bucketId ∉ notifyingBuckets q) then
    let q := addToResourcePolicy (sendMessageStatement q bucketArn) q in
    match encryptionMasterKey q with
    | Some key =>
        match keyAddToResourcePolicy key keyStatement false with
        | Return key' =>
            let q := setEncryptionMasterKey q (Some key') in
            let q := setNotifyingBuckets q (notifyingBuckets q ∪ {[ bucketId ]}) in
            (Return (destinationOf q), q)
        | Throw e => (Throw e, q)
        end
    | None =>
        let q := setNotifyingBuckets q (notifyingBuckets q ∪ {[ bucketId ]}) in
        (Return (destinationOf q), q)
    end
  else (Return (destinationOf q), q).

(** [grant]: the principal after the call; the queue is only read. *)
Definition grant (q : QueueRef Key) (identity : option Principal)
    (queueActions : list string) : option Principal :=
  match identity with
  | None => None
  | Some p => Some (p ++ [ [ addResource (queueArn q); addActions queueActions ] ])
  end.

Definition grantConsumeMessages (q : QueueRef Key) (identity : option Principal)
  : option Principal :=
  grant q identity
    [ "sqs:ReceiveMessage"; "sqs:ChangeMessageVisibility";
      "sqs:ChangeMessageVisibilityBatch"; "sqs:GetQueueUrl";
      "sqs:DeleteMessage"; "sqs:DeleteMessageBatch"; "sqs:GetQueueAttributes" ].

Definition grantSendMessages (q : QueueRef Key) (identity : option Principal)
  : option Principal :=
  grant q identity
    [ "sqs:SendMessage"; "sqs:SendMessageBatch";
      "sqs:GetQueueAttributes"; "sqs:GetQueueUrl" ].

Definition grantPurge (q : QueueRef Key) (identity : option Principal)
  : option Principal :=
  grant q identity
    [ "sqs:PurgeQueue"; "sqs:GetQueueAttributes"; "sqs:GetQueueUrl" ].

(** The permissions the comments of the three methods announce. *)
Definition documentedConsumeMessages : list string :=
  [ "sqs:ChangeMessageVisibility"; "sqs:ChangeMessageVisibilityBatch";
    "sqs:DeleteMessage"; "sqs:ReceiveMessage"; "sqs:DeleteMessageBatch";
    "sqs:GetQueueAttributes"; "sqs:GetQueueUrl" ].

Definition documentedSendMessages : list string :=
  [ "sqs:SendMessage"; "sqs:SendMessageBatch";
    "sqs:GetQueueAttributes"; "sqs:GetQueueUrl" ].

Definition documentedPurge : list string :=
  [ "sqs:PurgeQueue"; "sqs:GetQueueAttributes"; "sqs:GetQueueUrl" ].

(** [asLifecycleHookTarget], [role] being [lifecycleHook.role]. *)
Definition asLifecycleHookTarget (q : QueueRef Key) (role : option Principal)
  : LifecycleHookTargetProps * option Principal :=
  ({| notificationTargetArn := queueArn q |}, grantSendMessages q role).

(** [QueueRefProps] and the constructor of [ImportedQueue]. *)
Record QueueRefProps : Type := {
  propsQueueArn : string;
  propsQueueUrl : string;
  propsKeyArn : option string
}.

(** [if (props.keyArn)]: the empty string is as good as [undefined]. *)
Definition truthy (s : option string) : option string :=
  match s with
  | Some "" => None
  | other => other
  end.

Definition newImportedQueue (props : QueueRefProps) : QueueRef Key :=
  {| queueArn := propsQueueArn props;
     queueUrl := propsQueueUrl props;
     encryptionMasterKey := keyImport <$> truthy (propsKeyArn props);
     autoCreatePolicy := false;
     policy := None;
     notifyingBuckets := ∅ |}.

(** The calls that change a queue, and a program of such calls run one
    after the other, whether a call throws or not. *)
Inductive QueueCall : Type :=
| CallAddToResourcePolicy (statement : PolicyStatement)
| CallAsBucketNotificationDestination (bucketArn bucketId : string).

Definition call (c : QueueCall) (q : QueueRef Key) : QueueRef Key :=
  match c with
  | CallAddToResourcePolicy statement => addToResourcePolicy statement q
  | CallAsBucketNotificationDestination bucketArn bucketId =>
      (asBucketNotificationDestination bucketArn bucketId q).2
  end.

Definition calls (cs : list QueueCall) (q : QueueRef Key) : QueueRef Key :=
  foldl (λ q c, call c q) q cs.

(** The statements of the policy of the queue, none without a policy. *)
Definition statements (q : QueueRef Key) : list PolicyStatement :=
  from_option document [] (policy q).

(** Whether [addToResourcePolicy] has a policy to write to. *)
Definition keepsPolicy (q : QueueRef Key) : Prop :=
  autoCreatePolicy q = true ∨ is_Some (policy q).

(** Notifications for the buckets of a list, up to the first that throws. *)
Fixpoint notifyAll (buckets : list (string * string)) (q : QueueRef Key)
  : result (QueueRef Key) :=
  match buckets with
  | [] => Return q
  | (bucketArn, bucketId) :: rest =>
      match asBucketNotificationDestination bucketArn bucketId q with
      | (Return _, q') => notifyAll rest q'
      | (Throw e, _) => Throw e
      end
  end.

End QueueRef.

(** Keys for the examples: a key that takes every statement, and one that
    takes none. *)
Definition openKey : EncryptionKeyRef (list PolicyStatement) :=
  {| keyAddToResourcePolicy := λ key statement _, Return (key ++ [statement]);
     keyImport := λ _, [] |}.

Definition closedKey : EncryptionKeyRef unit :=
  {| keyAddToResourcePolicy := λ _ _ _, Throw (Error "Unable to add statement");
     keyImport := λ _, tt |}.

End sqs.

(** ** Concrete inputs for the further properties *)

(** Five intervals, two on each side of the neutral one. *)
Definition fiveSteps : list ScalingInterval :=
  [ {| lower := None; upper := Some 10%Z; change := (-2)%Z |};
    {| lower := Some 10%Z; upper := Some 20%Z; change := (-1)%Z |};
    {| lower := Some 20%Z; upper := Some 50%Z; change := 0%Z |};
    {| lower := Some 50%Z; upper := Some 70%Z; change := 1%Z |};
    {| lower := Some 70%Z; upper := None; change := 2%Z |} ].

Definition fiveProps : StepScalingPolicyProps :=
  propsOf (cpu "Maximum") fiveSteps (Some PercentChangeInCapacity).

Definition fivePolicy : StepScalingPolicy :=
  Eval vm_compute in
    match @newStepScalingPolicy specIntervalUtils fiveProps with
    | Return p => p
    | Throw _ => emptyPolicy
    end.

(** A queue that creates its policy, without a key; and an encrypted queue
    whose key takes no statement. *)
Definition freshQueue : sqs.QueueRef (list sqs.PolicyStatement) :=
  {| sqs.queueArn := "arn:aws:sqs:us-east-1:1234:jobs";
     sqs.queueUrl := "https://sqs.us-east-1.amazonaws.com/1234/jobs";
     sqs.encryptionMasterKey := None;
     sqs.autoCreatePolicy := true;
     sqs.policy := None;
     sqs.notifyingBuckets := ∅ |}.

Definition lockedQueue : sqs.QueueRef unit :=
  {| sqs.queueArn := "arn:aws:sqs:us-east-1:1234:jobs";
     sqs.queueUrl := "https://sqs.us-east-1.amazonaws.com/1234/jobs";
     sqs.encryptionMasterKey := Some tt;
     sqs.autoCreatePolicy := true;
     sqs.policy := None;
     sqs.notifyingBuckets := ∅ |}.

(** ** Predicates on the input and the output of the normalizer *)








(** * Properties *)

(** ** The result monad *)

Lemma bind_Return {A B : Type} (m : result A) (f : A → result B) (b : B) :
  m ≫= f = Return b → ∃ a, m = Return a ∧ f a = Return b.
Proof. destruct m as [a|e]; simpl; [eauto | discriminate]. Qed.

Lemma getIndex_Return {A : Type} (arr : list A) (i : nat) (a : A) :
  getIndex arr i = Return a ↔ arr !! i = Some a.
Proof. unfold getIndex. destruct (arr !! i); split; congruence. Qed.

Lemma getIndex_lt {A : Type} (arr : list A) (i : nat) :
  i < length arr → ∃ a, arr !! i = Some a ∧ getIndex arr i = Return a.
Proof.
  intros Hi. destruct (lookup_lt_is_Some_2 arr i Hi) as [a Ha].
  exists a. split; [done | by apply getIndex_Return].
Qed.

(** ** The two loops over the intervals *)

Section Loops.
Variable intervals : list NormalizedInterval.
Variable threshold : option Z.

Lemma lowerSteps_table (k : nat) :
  k < length intervals →
  ∀ act, ∃ table,
    lowerSteps intervals threshold k act = Return (extend act table) ∧
    LowerTable intervals threshold k table.
Proof.
  induction k as [|k IH]; intros Hk act.
  - destruct (getIndex_lt intervals 0 Hk) as (iv & Hiv & Hget).
    eexists [_]. simpl. rewrite Hget. simpl. split; [reflexivity|].
    split; [done|]. intros i Hi. assert (i = 0) as -> by lia.
    exists iv. eexists. split; [done|]. split; [reflexivity|]. done.
  - destruct (getIndex_lt intervals (S k) Hk) as (iv & Hiv & Hget).
    set (adj := {| adjustment := change iv;
                   lowerBound := Some (sub (lower iv) threshold);
                   upperBound := Some (sub (upper iv) threshold) |}).
    destruct (IH ltac:(lia) (action.addAdjustment act adj))
      as (table & Hrun & Hlen & Htable).
    exists (adj :: table). split.
    + simpl. rewrite Hget. simpl. fold adj. rewrite Hrun.
      unfold extend, action.addAdjustment. simpl.
      by rewrite <- app_assoc.
    + split; [simpl; lia|]. intros i Hi.
      destruct (decide (i = S k)) as [->|Hne].
      * exists iv, adj. rewrite Nat.sub_diag. done.
      * destruct (Htable i ltac:(lia)) as (iv' & adj' & ? & ? & ?).
        exists iv', adj'. split; [done|]. split; [|done].
        replace (S k - i) with (S (k - i)) by lia. done.
Qed.

Lemma upperSteps_table (n : nat) :
  ∀ k act, k + n = length intervals → ∃ table,
    upperSteps intervals threshold n k act = Return (extend act table) ∧
    UpperTable intervals threshold k table.
Proof.
  induction n as [|n IH]; intros k act Hk.
  - exists []. split.
    + simpl. unfold extend. rewrite app_nil_r. by destruct act.
    + split; [simpl; lia|]. intros i Hi. lia.
  - destruct (getIndex_lt intervals k ltac:(lia)) as (iv & Hiv & Hget).
    set (adj := {| adjustment := change iv;
                   lowerBound := Some (sub (lower iv) threshold);
                   upperBound := if bool_decide (k ≠ length intervals - 1)
                                 then Some (sub (upper iv) threshold)
                                 else None |}).
    destruct (IH (S k) (action.addAdjustment act adj) ltac:(lia))
      as (table & Hrun & Hlen & Htable).
    exists (adj :: table). split.
    + simpl. rewrite Hget. simpl. fold adj. rewrite Hrun.
      unfold extend, action.addAdjustment. simpl.
      by rewrite <- app_assoc.
    + split; [simpl; lia|]. intros i Hi.
      destruct (decide (i = k)) as [->|Hne].
      * exists iv, adj. rewrite Nat.sub_diag.
        repeat split; try done. simpl.
        case_bool_decide; case_decide; try done; lia.
      * destruct (Htable i ltac:(lia)) as (iv' & adj' & ? & ? & ?).
        exists iv', adj'. split; [done|]. split; [|done].
        replace (i - k) with (S (i - S k)) by lia. done.
Qed.

End Loops.

(** ** The two branches of the constructor *)

Lemma lowerBranch_Some props ivs k iv agg :
  ivs !! k = Some iv →
  aggregationTypeFromMetric (metric props) = Return agg →
  ∃ table,
    LowerTable ivs (upper iv) k table ∧
    lowerBranch props ivs (Some k) =
      Return (Some (lowerAlarmOf props (upper iv)),
              Some (extend (newAction "LowerPolicy" props agg) table)).
Proof.
  intros Hiv Hagg.
  destruct (lowerSteps_table ivs (upper iv) k (lookup_lt_Some _ _ _ Hiv)
              (newAction "LowerPolicy" props agg)) as (table & Hrun & Htable).
  exists table. split; [done|].
  unfold lowerBranch. apply getIndex_Return in Hiv. rewrite Hiv. simpl.
  rewrite Hagg. simpl. rewrite Hrun. reflexivity.
Qed.

Lemma upperBranch_Some props ivs k iv agg :
  ivs !! k = Some iv →
  aggregationTypeFromMetric (metric props) = Return agg →
  ∃ table,
    UpperTable ivs (lower iv) k table ∧
    upperBranch props ivs (Some k) =
      Return (Some (upperAlarmOf props (lower iv)),
              Some (extend (newAction "UpperPolicy" props agg) table)).
Proof.
  intros Hiv Hagg.
  pose proof (lookup_lt_Some _ _ _ Hiv) as Hk.
  destruct (upperSteps_table ivs (lower iv) (length ivs - k) k
              (newAction "UpperPolicy" props agg) ltac:(lia))
    as (table & Hrun & Htable).
  exists table. split; [done|].
  unfold upperBranch. apply getIndex_Return in Hiv. rewrite Hiv. simpl.
  rewrite Hagg. simpl. rewrite Hrun. reflexivity.
Qed.

Lemma lowerBranch_Return props ivs k r :
  lowerBranch props ivs (Some k) = Return r →
  ∃ iv agg table,
    ivs !! k = Some iv ∧
    aggregationTypeFromMetric (metric props) = Return agg ∧
    LowerTable ivs (upper iv) k table ∧
    r = (Some (lowerAlarmOf props (upper iv)),
         Some (extend (newAction "LowerPolicy" props agg) table)).
Proof.
  intros Hrun. pose proof Hrun as Hrun'. unfold lowerBranch in Hrun'.
  apply bind_Return in Hrun' as (iv & Hiv & Hrun').
  apply bind_Return in Hrun' as (agg & Hagg & _).
  apply getIndex_Return in Hiv.
  destruct (lowerBranch_Some props ivs k iv agg Hiv Hagg) as (table & Htable & Heq).
  exists iv, agg, table. split; [done|]. split; [done|]. split; [done|].
  rewrite Hrun in Heq. by injection Heq.
Qed.

Lemma upperBranch_Return props ivs k r :
  upperBranch props ivs (Some k) = Return r →
  ∃ iv agg table,
    ivs !! k = Some iv ∧
    aggregationTypeFromMetric (metric props) = Return agg ∧
    UpperTable ivs (lower iv) k table ∧
    r = (Some (upperAlarmOf props (lower iv)),
         Some (extend (newAction "UpperPolicy" props agg) table)).
Proof.
  intros Hrun. pose proof Hrun as Hrun'. unfold upperBranch in Hrun'.
  apply bind_Return in Hrun' as (iv & Hiv & Hrun').
  apply bind_Return in Hrun' as (agg & Hagg & _).
  apply getIndex_Return in Hiv.
  destruct (upperBranch_Some props ivs k iv agg Hiv Hagg) as (table & Htable & Heq).
  exists iv, agg, table. split; [done|]. split; [done|]. split; [done|].
  rewrite Hrun in Heq. by injection Heq.
Qed.

(** What a successful construction went through. *)
Lemma newStepScalingPolicy_Return `{IntervalUtils} props p :
  newStepScalingPolicy props = Return p →
  ∃ ivs,
    2 ≤ length (scalingSteps props) ∧
    normalizeIntervals (scalingSteps props) (changesAreAbsolute props) = Return ivs ∧
    lowerBranch props ivs (lowerAlarmIntervalIndex (findAlarmThresholds ivs))
      = Return (lowerAlarm p, lowerAction p) ∧
    upperBranch props ivs (upperAlarmIntervalIndex (findAlarmThresholds ivs))
      = Return (upperAlarm p, upperAction p).
Proof.
  unfold newStepScalingPolicy. case_bool_decide as Hlen; [discriminate|].
  intros Hrun.
  apply bind_Return in Hrun as (ivs & Hivs & Hrun).
  apply bind_Return in Hrun as ([la lc] & Hlo & Hrun).
  apply bind_Return in Hrun as ([ua uc] & Hup & Hrun).
  injection Hrun as <-. simpl.
  exists ivs. repeat split; try done. lia.
Qed.

(** ** Consequences of the shape of a step table *)

Lemma LowerTable_threshold_entry ivs k iv t table :
  ivs !! k = Some iv → upper iv = Some t →
  LowerTable ivs (upper iv) k table →
  ∃ adj, table !! 0 = Some adj ∧ upperBound adj = Some (Num 0).
Proof.
  intros Hiv Ht [_ Htable].
  destruct (Htable k ltac:(lia)) as (iv' & adj & Hiv' & Hadj & _ & Hup & _).
  rewrite Nat.sub_diag in Hadj. exists adj. split; [done|].
  rewrite Hup. assert (iv' = iv) as -> by congruence.
  rewrite Ht. simpl. by rewrite Z.sub_diag.
Qed.

Lemma LowerTable_outermost ivs threshold k table :
  LowerTable ivs threshold k table →
  ∃ adj, last table = Some adj ∧ lowerBound adj = None.
Proof.
  intros [Hlen Htable].
  destruct (Htable 0 ltac:(lia)) as (iv & adj & _ & Hadj & _ & _ & Hlo).
  exists adj. split; [|done].
  rewrite last_lookup, Hlen. simpl. by rewrite Nat.sub_0_r in Hadj.
Qed.

Lemma UpperTable_threshold_entry ivs k iv t table :
  ivs !! k = Some iv → lower iv = Some t →
  UpperTable ivs (lower iv) k table →
  ∃ adj, table !! 0 = Some adj ∧ lowerBound adj = Some (Num 0).
Proof.
  intros Hiv Ht [_ Htable].
  pose proof (lookup_lt_Some _ _ _ Hiv) as Hk.
  destruct (Htable k ltac:(lia)) as (iv' & adj & Hiv' & Hadj & _ & Hlo & _).
  rewrite Nat.sub_diag in Hadj. exists adj. split; [done|].
  rewrite Hlo. assert (iv' = iv) as -> by congruence.
  rewrite Ht. simpl. by rewrite Z.sub_diag.
Qed.

Lemma UpperTable_outermost ivs threshold k table :
  k < length ivs →
  UpperTable ivs threshold k table →
  ∃ adj, last table = Some adj ∧ upperBound adj = None.
Proof.
  intros Hk [Hlen Htable].
  destruct (Htable (length ivs - 1) ltac:(lia)) as (iv & adj & _ & Hadj & _ & _ & Hup).
  exists adj. split.
  - rewrite last_lookup, Hlen.
    by replace (Init.Nat.pred (length ivs - k)) with (length ivs - 1 - k) by lia.
  - rewrite Hup. case_decide; [done | lia].
Qed.

(** ** Claims about the constructor, for any implementation of the helpers *)

(** C2.  For each alarm direction that is derived, the step table of its
    action has one entry per interval walked from the threshold interval to
    the outer end.  The adjustment of an entry is the change of its interval
    and its bounds are the bounds of the interval minus the threshold of the
    direction, so that the bound of the threshold interval next to the
    neutral zone is 0 when the threshold is a number; the outward bound of
    the outermost entry is undefined. *)
Theorem step_tables_relative_to_threshold `{IntervalUtils} props ivs p :
  normalizeIntervals (scalingSteps props) (changesAreAbsolute props) = Return ivs →
  newStepScalingPolicy props = Return p →
  (∀ k, lowerAlarmIntervalIndex (findAlarmThresholds ivs) = Some k →
     ∃ iv act,
       ivs !! k = Some iv ∧ lowerAction p = Some act ∧
       LowerTable ivs (upper iv) k (action.adjustments act) ∧
       (∀ t, upper iv = Some t →
          ∃ adj, action.adjustments act !! 0 = Some adj ∧
                 upperBound adj = Some (Num 0)) ∧
       (∃ adj, last (action.adjustments act) = Some adj ∧ lowerBound adj = None)) ∧
  (∀ k, upperAlarmIntervalIndex (findAlarmThresholds ivs) = Some k →
     ∃ iv act,
       ivs !! k = Some iv ∧ upperAction p = Some act ∧
       UpperTable ivs (lower iv) k (action.adjustments act) ∧
       (∀ t, lower iv = Some t →
          ∃ adj, action.adjustments act !! 0 = Some adj ∧
                 lowerBound adj = Some (Num 0)) ∧
       (∃ adj, last (action.adjustments act) = Some adj ∧ upperBound adj = None)).
Proof.
  intros Hivs Hrun.
  apply newStepScalingPolicy_Return in Hrun as (ivs' & _ & Hivs' & Hlo & Hup).
  assert (ivs' = ivs) as -> by congruence.
  split; intros k Hk.
  - rewrite Hk in Hlo.
    apply lowerBranch_Return in Hlo as (iv & agg & table & Hiv & _ & Htable & Heq).
    injection Heq as _ Hact. exists iv. eexists. split; [done|].
    split; [done|]. simpl. split; [done|]. split.
    + intros t Ht. by eapply LowerTable_threshold_entry.
    + by eapply LowerTable_outermost.
  - rewrite Hk in Hup.
    apply upperBranch_Return in Hup as (iv & agg & table & Hiv & _ & Htable & Heq).
    injection Heq as _ Hact. exists iv. eexists. split; [done|].
    split; [done|]. simpl. split; [done|]. split.
    + intros t Ht. by eapply UpperTable_threshold_entry.
    + eapply UpperTable_outermost; [|done]. by eapply lookup_lt_Some.
Qed.

(** C3.  When the lower alarm index is defined, the threshold of the lower
    alarm is the upper bound of the interval at that index; when the upper
    alarm index is defined, the threshold of the upper alarm is the lower
    bound of the interval at that index. *)
Theorem alarm_threshold_is_adjacent_bound `{IntervalUtils} props ivs p :
  normalizeIntervals (scalingSteps props) (changesAreAbsolute props) = Return ivs →
  newStepScalingPolicy props = Return p →
  (∀ k, lowerAlarmIntervalIndex (findAlarmThresholds ivs) = Some k →
     ∃ iv alarm, ivs !! k = Some iv ∧ lowerAlarm p = Some alarm ∧
                 cloudwatch.threshold alarm = upper iv) ∧
  (∀ k, upperAlarmIntervalIndex (findAlarmThresholds ivs) = Some k →
     ∃ iv alarm, ivs !! k = Some iv ∧ upperAlarm p = Some alarm ∧
                 cloudwatch.threshold alarm = lower iv).
Proof.
  intros Hivs Hrun.
  apply newStepScalingPolicy_Return in Hrun as (ivs' & _ & Hivs' & Hlo & Hup).
  assert (ivs' = ivs) as -> by congruence.
  split; intros k Hk.
  - rewrite Hk in Hlo.
    apply lowerBranch_Return in Hlo as (iv & agg & table & Hiv & _ & _ & Heq).
    injection Heq as Halarm _. exists iv. eexists. by repeat split.
  - rewrite Hk in Hup.
    apply upperBranch_Return in Hup as (iv & agg & table & Hiv & _ & _ & Heq).
    injection Heq as Halarm _. exists iv. eexists. by repeat split.
Qed.

Lemma aggregationTypeFromMetric_unsupported m :
  Unsupported (cloudwatch.statistic m) →
  aggregationTypeFromMetric m = Throw (Error (unsupportedStatistic (cloudwatch.statistic m))).
Proof.
  intros (Ha & Hmin & Hmax). unfold aggregationTypeFromMetric.
  by repeat case_bool_decide.
Qed.

Lemma lowerBranch_unsupported props ivs k :
  Unsupported (cloudwatch.statistic (metric props)) → k < length ivs →
  lowerBranch props ivs (Some k)
    = Throw (Error (unsupportedStatistic (cloudwatch.statistic (metric props)))).
Proof.
  intros Hstat Hk. destruct (getIndex_lt ivs k Hk) as (iv & _ & Hget).
  unfold lowerBranch. rewrite Hget. simpl.
  by rewrite aggregationTypeFromMetric_unsupported.
Qed.

Lemma upperBranch_unsupported props ivs k :
  Unsupported (cloudwatch.statistic (metric props)) → k < length ivs →
  upperBranch props ivs (Some k)
    = Throw (Error (unsupportedStatistic (cloudwatch.statistic (metric props)))).
Proof.
  intros Hstat Hk. destruct (getIndex_lt ivs k Hk) as (iv & _ & Hget).
  unfold upperBranch. rewrite Hget. simpl.
  by rewrite aggregationTypeFromMetric_unsupported.
Qed.

(** C7, as the constructor has it.  The statistic of the metric is mapped
    where the action of an alarm is created.  With a statistic other than
    Average, Minimum and Maximum, two intervals at least and a successful
    normalization, construction throws the error of
    [aggregationTypeFromMetric] as soon as one alarm direction is derived;
    it returns a policy without alarms when none is. *)
Theorem unsupported_statistic_rejected_with_an_alarm `{IntervalUtils} props ivs :
  Unsupported (cloudwatch.statistic (metric props)) →
  2 ≤ length (scalingSteps props) →
  normalizeIntervals (scalingSteps props) (changesAreAbsolute props) = Return ivs →
  (∀ k, lowerAlarmIntervalIndex (findAlarmThresholds ivs) = Some k → k < length ivs) →
  (∀ k, upperAlarmIntervalIndex (findAlarmThresholds ivs) = Some k → k < length ivs) →
  (is_Some (lowerAlarmIntervalIndex (findAlarmThresholds ivs)) ∨
   is_Some (upperAlarmIntervalIndex (findAlarmThresholds ivs)) →
   newStepScalingPolicy props
     = Throw (Error (unsupportedStatistic (cloudwatch.statistic (metric props))))) ∧
  (lowerAlarmIntervalIndex (findAlarmThresholds ivs) = None →
   upperAlarmIntervalIndex (findAlarmThresholds ivs) = None →
   newStepScalingPolicy props = Return emptyPolicy).
Proof.
  intros Hstat Hlen Hivs Hlo Hup.
  unfold newStepScalingPolicy. rewrite bool_decide_false by lia.
  rewrite Hivs. simpl.
  destruct (lowerAlarmIntervalIndex (findAlarmThresholds ivs)) as [k|] eqn:Elo.
  - split; [|discriminate]. intros _.
    by rewrite lowerBranch_unsupported by auto.
  - destruct (upperAlarmIntervalIndex (findAlarmThresholds ivs)) as [k|] eqn:Eup.
    + split; [|discriminate]. intros _.
      by rewrite upperBranch_unsupported by auto.
    + split; [|done]. intros [[? ?]|[? ?]]; discriminate.
Qed.

(** C8.  With fewer than two scaling intervals the constructor throws
    'You must supply at least 2 intervals for autoscaling', whatever the
    interval helpers would do: nothing is normalized and no alarm or action
    is made before. *)
Theorem fewer_than_two_intervals_rejected `{IntervalUtils} props :
  length (scalingSteps props) < 2 →
  newStepScalingPolicy props
    = Throw (Error "You must supply at least 2 intervals for autoscaling").
Proof.
  intros Hlen. unfold newStepScalingPolicy.
  by rewrite bool_decide_true.
Qed.

Lemma lowerBranch_alarm props ivs idx al ac :
  lowerBranch props ivs idx = Return (al, ac) →
  ∀ alarm, al = Some alarm → ∃ threshold, alarm = lowerAlarmOf props threshold.
Proof.
  destruct idx as [k|]; intros Hrun alarm ->.
  - apply lowerBranch_Return in Hrun as (iv & agg & table & _ & _ & _ & Heq).
    injection Heq as Halarm _. eauto.
  - discriminate.
Qed.

Lemma upperBranch_alarm props ivs idx al ac :
  upperBranch props ivs idx = Return (al, ac) →
  ∀ alarm, al = Some alarm → ∃ threshold, alarm = upperAlarmOf props threshold.
Proof.
  destruct idx as [k|]; intros Hrun alarm ->.
  - apply upperBranch_Return in Hrun as (iv & agg & table & _ & _ & _ & Heq).
    injection Heq as Halarm _. eauto.
  - discriminate.
Qed.

(** C9.  An alarm of the policy has one evaluation period, compares with
    LessThanOrEqualToThreshold (lower alarm) or GreaterThanOrEqualToThreshold
    (upper alarm), and watches the metric of the properties with its period
    replaced by 60 seconds. *)
Theorem alarms_one_period_sixty_seconds `{IntervalUtils} props p :
  newStepScalingPolicy props = Return p →
  (∀ alarm, lowerAlarm p = Some alarm →
     cloudwatch.evaluationPeriods alarm = 1%Z ∧
     cloudwatch.comparisonOperator alarm = cloudwatch.LessThanOrEqualToThreshold ∧
     cloudwatch.metric alarm = cloudwatch.withPeriodSec (metric props) 60 ∧
     cloudwatch.periodSec (cloudwatch.metric alarm) = 60%Z) ∧
  (∀ alarm, upperAlarm p = Some alarm →
     cloudwatch.evaluationPeriods alarm = 1%Z ∧
     cloudwatch.comparisonOperator alarm = cloudwatch.GreaterThanOrEqualToThreshold ∧
     cloudwatch.metric alarm = cloudwatch.withPeriodSec (metric props) 60 ∧
     cloudwatch.periodSec (cloudwatch.metric alarm) = 60%Z).
Proof.
  intros Hrun.
  apply newStepScalingPolicy_Return in Hrun as (ivs & _ & _ & Hlo & Hup).
  split; intros alarm Halarm.
  - destruct (lowerBranch_alarm _ _ _ _ _ Hlo alarm Halarm) as [thr ->]. done.
  - destruct (upperBranch_alarm _ _ _ _ _ Hup alarm Halarm) as [thr ->]. done.
Qed.

(** ** The adjustment type is only handed on to the actions *)










(** ** The helpers of the specification: neighbours in a list *)

Section Adjacent.
Context {A : Type} (R : A → A → Prop).

Lemma Adjacent_nil : Adjacent R [].
Proof. intros i a b Ha. by rewrite lookup_nil in Ha. Qed.

Lemma Adjacent_singleton a : Adjacent R [a].
Proof. intros [|i] x y Hx Hy; simpl in *; by rewrite ?lookup_nil in *. Qed.

Lemma Adjacent_cons a b l :
  Adjacent R (a :: b :: l) ↔ R a b ∧ Adjacent R (b :: l).
Proof.
  split.
  - intros Hadj. split.
    + by apply (Hadj 0).
    + intros i x y Hx Hy. by apply (Hadj (S i)).
  - intros [Hab Hadj] [|i] x y Hx Hy; simpl in *.
    + by simplify_eq.
    + by apply (Hadj i).
Qed.

Lemma Adjacent_tail a l : Adjacent R (a :: l) → Adjacent R l.
Proof.
  destruct l as [|b l]; [intros; apply Adjacent_nil|].
  intros Hadj. by apply Adjacent_cons in Hadj as [_ ?].
Qed.
End Adjacent.

Lemma contiguous_Contiguous ivs : Spec.contiguous ivs = true ↔ Contiguous ivs.
Proof.
  unfold Contiguous. induction ivs as [|a [|b l] IH].
  - split; [intros; apply Adjacent_nil | done].
  - split; [intros; apply Adjacent_singleton | done].
  - rewrite Adjacent_cons. change (Spec.contiguous (a :: b :: l))
      with (bool_decide (upper a = lower b) && Spec.contiguous (b :: l)).
    rewrite andb_true_iff, bool_decide_eq_true. by rewrite IH.
Qed.

(** ** Sorting *)






Lemma sortIntervals_id ivs : KeySorted ivs → Spec.sortIntervals ivs = ivs.
Proof.
  unfold KeySorted. induction ivs as [|a l IH]; intros Hl; simpl; [done|].
  rewrite IH by by eapply Adjacent_tail.
  destruct l as [|b l]; simpl; [done|].
  apply Adjacent_cons in Hl as [-> _]. done.
Qed.

(** ** Filling the bounds *)

Lemma fillBounds_id prev ivs :
  (∀ i iv, ivs !! i = Some iv →
     (0 < i ∨ is_Some prev → is_Some (lower iv)) ∧
     (S i < length ivs → is_Some (upper iv))) →
  Spec.fillBounds prev ivs = ivs.
Proof.
  revert prev. induction ivs as [|a rest IH]; intros prev Hfilled; simpl; [done|].
  destruct (Hfilled 0 a eq_refl) as [Hlo Hup]. f_equal.
  - destruct a as [lo up ch]; simpl in *. f_equal.
    + destruct lo as [l|]; [done|]. destruct prev as [p|]; [|done].
      destruct Hlo as [? [=]]. right. eauto.
    + destruct up as [u|]; [done|]. destruct rest as [|b rest]; [done|].
      destruct Hup as [? [=]]. simpl. lia.
  - apply IH. intros i iv Hiv.
    destruct (Hfilled (S i) iv Hiv) as [Hlo' Hup']. split.
    + intros _. apply Hlo'. left. lia.
    + intros Hi. apply Hup'. simpl. lia.
Qed.

(** ** Counting the open bounds of a normalized sequence *)

Lemma filter_none {A : Type} (P : A → Prop) `{∀ x, Decision (P x)} (l : list A) :
  Forall (λ x, ¬ P x) l → filter P l = [].
Proof.
  induction 1 as [|x l Hx _ IH]; [done|].
  by rewrite filter_cons_False.
Qed.

Lemma openLowerCount_filled ivs :
  (∀ i iv, ivs !! i = Some iv → 0 < i → is_Some (lower iv)) →
  Spec.openLowerCount ivs ≤ 1.
Proof.
  unfold Spec.openLowerCount. intros Hfilled.
  destruct ivs as [|a rest]; [simpl; lia|].
  assert (filter (λ s, lower s = None) rest = []) as Hrest.
  { apply filter_none, Forall_lookup. intros i iv Hiv Hnone.
    destruct (Hfilled (S i) iv Hiv ltac:(lia)) as [l Hl]. congruence. }
  rewrite filter_cons, Hrest. case_decide; simpl; lia.
Qed.

Lemma openUpperCount_filled ivs :
  (∀ i iv, ivs !! i = Some iv → S i < length ivs → is_Some (upper iv)) →
  Spec.openUpperCount ivs ≤ 1.
Proof.
  unfold Spec.openUpperCount. induction ivs as [|a rest IH]; intros Hfilled.
  - simpl. lia.
  - destruct rest as [|b rest].
    + rewrite filter_cons. case_decide; simpl; lia.
    + rewrite filter_cons, decide_False.
      * apply IH. intros i iv Hiv Hi. apply (Hfilled (S i) iv Hiv). simpl in *. lia.
      * destruct (Hfilled 0 a eq_refl) as [u Hu]; [simpl; lia | congruence].
Qed.

(** ** Claims about the helpers of the specification *)

(** C4.  When the neutral interval, the first interval whose change is 0,
    has an interval of change other than 0 directly below and directly
    above it, both alarm indices are defined: the lower one is the index of
    the neutral interval minus 1, the upper one is that index plus 1. *)
Theorem flanked_neutral_interval_gives_both_alarms
    (ivs : list NormalizedInterval) (m : nat) (below neutral above : NormalizedInterval) :
  ivs !! m = Some below →
  ivs !! S m = Some neutral →
  ivs !! S (S m) = Some above →
  change below ≠ 0%Z → change neutral = 0%Z → change above ≠ 0%Z →
  (∀ j iv, j < S m → ivs !! j = Some iv → change iv ≠ 0%Z) →
  Spec.deriveThresholds ivs =
    {| lowerAlarmIntervalIndex := Some m;
       upperAlarmIntervalIndex := Some (S (S m)) |}.
Proof.
  intros Hbelow Hneutral Habove Hb Hn Ha Hfirst.
  assert (list_find (λ iv, change iv = 0%Z) ivs = Some (S m, neutral)) as Hfind.
  { apply list_find_Some. split; [done|]. split; [done|].
    intros j iv Hiv Hj. by eapply Hfirst. }
  unfold Spec.deriveThresholds, Spec.neutralIndex. rewrite Hfind.
  unfold Spec.alarmAt. rewrite Hbelow, Habove.
  by rewrite !bool_decide_true.
Qed.

(** ** The normalizer on well-formed input *)







Section Filled.
Variable sorted : list ScalingInterval.
Hypothesis Hlower : ∀ i s, sorted !! i = Some s → 0 < i → is_Some (lower s).
Hypothesis Hsorted : KeySorted sorted.
Hypothesis Hordered : Ordered sorted.

Let filled := Spec.fillBounds None sorted.








End Filled.


(** C6.  A sequence that is already normalized (ascending by the boundary
    the normalizer sorts by, contiguous, every bound a number except the
    lower bound of the first interval and the upper bound of the last one)
    is returned by the normalizer as it is. *)
Theorem normalize_idempotent (ivs : list NormalizedInterval) (absolute : bool) :
  KeySorted ivs → Contiguous ivs → InnerBoundsFilled ivs →
  Spec.normalize ivs absolute = Return ivs.
Proof.
  intros Hsorted Hcont Hfilled. unfold Spec.normalize.
  rewrite bool_decide_false; cycle 1.
  { assert (Spec.openLowerCount ivs ≤ 1).
    { apply openLowerCount_filled. intros i iv Hiv. by apply Hfilled. }
    assert (Spec.openUpperCount ivs ≤ 1).
    { apply openUpperCount_filled. intros i iv Hiv. by apply Hfilled. }
    lia. }
  rewrite sortIntervals_id by done.
  rewrite fillBounds_id; cycle 1.
  { intros i iv Hiv. destruct (Hfilled i iv Hiv) as [Hlo Hup].
    split; [|done]. intros [?|[? [=]]]. auto. }
  apply contiguous_Contiguous in Hcont.
  destruct absolute; by rewrite Hcont.
Qed.

(** C1.  For the three intervals of the example and ChangeInCapacity (with
    a metric whose statistic has an aggregation type) the lower alarm index
    is 0, the lower alarm has threshold 10 and the lower step table is one
    adjustment of -1 with upper bound 0 and no lower bound; the upper alarm
    index is 2, the upper alarm has threshold 50 and the upper step table is
    one adjustment of 1 with lower bound 0 and no upper bound. *)
Theorem example_policy (props : StepScalingPolicyProps) (agg : MetricAggregationType) :
  scalingSteps props = exampleSteps →
  adjustmentType props = Some ChangeInCapacity →
  aggregationTypeFromMetric (metric props) = Return agg →
  ∃ ivs p,
    Spec.normalize (scalingSteps props) (changesAreAbsolute props) = Return ivs ∧
    Spec.deriveThresholds ivs =
      {| lowerAlarmIntervalIndex := Some 0; upperAlarmIntervalIndex := Some 2 |} ∧
    @newStepScalingPolicy specIntervalUtils props = Return p ∧
    cloudwatch.threshold <$> lowerAlarm p = Some (Some 10%Z) ∧
    action.adjustments <$> lowerAction p =
      Some [ {| adjustment := (-1)%Z; lowerBound := None; upperBound := Some (Num 0) |} ] ∧
    cloudwatch.threshold <$> upperAlarm p = Some (Some 50%Z) ∧
    action.adjustments <$> upperAction p =
      Some [ {| adjustment := 1%Z; lowerBound := Some (Num 0); upperBound := None |} ].
Proof.
  intros Hsteps Htype Hagg.
  assert (changesAreAbsolute props = false) as Hflag.
  { unfold changesAreAbsolute, effectiveAdjustmentType. by rewrite Htype. }
  exists exampleSteps. eexists.
  rewrite Hsteps, Hflag. split; [reflexivity|]. split; [reflexivity|].
  unfold newStepScalingPolicy. rewrite Hsteps, Hflag. simpl.
  unfold lowerBranch, upperBranch. simpl. rewrite Hagg. simpl.
  split; [reflexivity|]. by repeat split.
Qed.

(** ** The claims at concrete inputs *)

Ltac concrete_index i :=
  repeat (destruct i as [|i]; simpl in *; simplify_eq; try done).

Lemma exampleSteps_KeySorted : KeySorted exampleSteps.
Proof. intros i a b Ha Hb. concrete_index i. Qed.

Lemma exampleSteps_Contiguous : Contiguous exampleSteps.
Proof. by apply contiguous_Contiguous. Qed.

Lemma exampleSteps_InnerBoundsFilled : InnerBoundsFilled exampleSteps.
Proof.
  intros i iv Hiv. concrete_index i; (split; [intros; eauto; lia | intros; simpl in *; eauto; lia]).
Qed.

Lemma p99_Unsupported : Unsupported "p99".
Proof. by repeat split. Qed.

Lemma example_policy_witness :
  ∃ ivs p,
    Spec.normalize exampleSteps false = Return ivs ∧
    Spec.deriveThresholds ivs =
      {| lowerAlarmIntervalIndex := Some 0; upperAlarmIntervalIndex := Some 2 |} ∧
    @newStepScalingPolicy specIntervalUtils exampleProps = Return p ∧
    cloudwatch.threshold <$> lowerAlarm p = Some (Some 10%Z) ∧
    action.adjustments <$> lowerAction p =
      Some [ {| adjustment := (-1)%Z; lowerBound := None; upperBound := Some (Num 0) |} ] ∧
    cloudwatch.threshold <$> upperAlarm p = Some (Some 50%Z) ∧
    action.adjustments <$> upperAction p =
      Some [ {| adjustment := 1%Z; lowerBound := Some (Num 0); upperBound := None |} ].
Proof. apply (example_policy exampleProps Average); reflexivity. Defined.

Lemma step_tables_witness :
  @newStepScalingPolicy specIntervalUtils exampleProps = Return examplePolicy ∧
  (∃ act, lowerAction examplePolicy = Some act ∧
          LowerTable exampleSteps (Some 10%Z) 0 (action.adjustments act)) ∧
  (∃ act, upperAction examplePolicy = Some act ∧
          UpperTable exampleSteps (Some 50%Z) 2 (action.adjustments act)).
Proof.
  split; [reflexivity|].
  destruct (@step_tables_relative_to_threshold specIntervalUtils
              exampleProps exampleSteps examplePolicy eq_refl eq_refl) as [Hlo Hup].
  split.
  - destruct (Hlo 0 eq_refl) as (iv & act & Hiv & Hact & Htable & _).
    injection Hiv as <-. eauto.
  - destruct (Hup 2 eq_refl) as (iv & act & Hiv & Hact & Htable & _).
    injection Hiv as <-. eauto.
Defined.

Lemma alarm_threshold_witness :
  @newStepScalingPolicy specIntervalUtils exampleProps = Return examplePolicy ∧
  (∃ alarm, lowerAlarm examplePolicy = Some alarm ∧
            cloudwatch.threshold alarm = Some 10%Z) ∧
  (∃ alarm, upperAlarm examplePolicy = Some alarm ∧
            cloudwatch.threshold alarm = Some 50%Z).
Proof.
  split; [reflexivity|].
  destruct (@alarm_threshold_is_adjacent_bound specIntervalUtils
              exampleProps exampleSteps examplePolicy eq_refl eq_refl) as [Hlo Hup].
  split.
  - destruct (Hlo 0 eq_refl) as (iv & alarm & Hiv & Halarm & Hthr).
    injection Hiv as <-. eauto.
  - destruct (Hup 2 eq_refl) as (iv & alarm & Hiv & Halarm & Hthr).
    injection Hiv as <-. eauto.
Defined.

Lemma flanked_neutral_interval_witness :
  Spec.deriveThresholds exampleSteps =
    {| lowerAlarmIntervalIndex := Some 0; upperAlarmIntervalIndex := Some 2 |}.
Proof.
  eapply (flanked_neutral_interval_gives_both_alarms exampleSteps 0);
    try reflexivity; try done.
  intros j iv Hj Hiv. assert (j = 0) as -> by lia. by injection Hiv as <-.
Defined.






Lemma normalize_idempotent_witness :
  Spec.normalize exampleSteps true = Return exampleSteps.
Proof.
  apply normalize_idempotent.
  - exact exampleSteps_KeySorted.
  - exact exampleSteps_Contiguous.
  - exact exampleSteps_InnerBoundsFilled.
Defined.

(** C7 as it was claimed fails: two intervals that never scale derive no
    alarm, and the policy is built although the statistic is p99. *)
Lemma unsupported_statistic_accepted_without_alarm :
  Unsupported (cloudwatch.statistic (metric idleProps)) ∧
  @newStepScalingPolicy specIntervalUtils idleProps = Return emptyPolicy ∧
  ¬ (Unsupported (cloudwatch.statistic (metric idleProps)) →
     ∃ e, @newStepScalingPolicy specIntervalUtils idleProps = Throw e).
Proof.
  split; [exact p99_Unsupported|]. split; [reflexivity|].
  intros Hthrows. destruct (Hthrows p99_Unsupported) as [e He]. discriminate He.
Qed.

Lemma unsupported_statistic_witness :
  @newStepScalingPolicy specIntervalUtils (propsOf (cpu "p99") exampleSteps None)
  = Throw (Error "Cannot only scale on 'Minimum', 'Maximum', 'Average' metrics, got p99").
Proof.
  refine (proj1 (@unsupported_statistic_rejected_with_an_alarm specIntervalUtils
            (propsOf (cpu "p99") exampleSteps None) exampleSteps
            p99_Unsupported _ eq_refl _ _) _).
  - simpl. lia.
  - intros k [= <-]. simpl. lia.
  - intros k [= <-]. simpl. lia.
  - left. by eexists.
Defined.

Lemma fewer_than_two_intervals_witness :
  length singleStep < 2 ∧
  @newStepScalingPolicy specIntervalUtils (propsOf (cpu "Average") singleStep None)
  = Throw (Error "You must supply at least 2 intervals for autoscaling").
Proof.
  split; [simpl; lia|].
  apply (@fewer_than_two_intervals_rejected specIntervalUtils). simpl. lia.
Defined.

Lemma alarms_one_period_witness :
  ∃ lo up,
    lowerAlarm examplePolicy = Some lo ∧ upperAlarm examplePolicy = Some up ∧
    cloudwatch.periodSec (metric exampleProps) = 300%Z ∧
    cloudwatch.periodSec (cloudwatch.metric lo) = 60%Z ∧
    cloudwatch.periodSec (cloudwatch.metric up) = 60%Z ∧
    cloudwatch.evaluationPeriods lo = 1%Z ∧
    cloudwatch.evaluationPeriods up = 1%Z.
Proof.
  destruct (@alarms_one_period_sixty_seconds specIntervalUtils
              exampleProps examplePolicy eq_refl) as [Hlo Hup].
  eexists _, _. split; [reflexivity|]. split; [reflexivity|]. split; [reflexivity|].
  destruct (Hlo _ eq_refl) as (? & _ & _ & ?).
  destruct (Hup _ eq_refl) as (? & _ & _ & ?).
  done.
Defined.

(** * Further properties of the step scaling policy *)

Lemma aggregationTypeFromMetric_name m agg :
  aggregationTypeFromMetric m = Return agg ↔ cloudwatch.statistic m = aggregationName agg.
Proof.
  unfold aggregationTypeFromMetric. split.
  - repeat case_bool_decide; intros [= <-]; done.
  - intros Hname. rewrite Hname. by destruct agg.
Qed.

Lemma aggregationTypeFromMetric_Supported m :
  Supported (cloudwatch.statistic m) ↔ ∃ agg, aggregationTypeFromMetric m = Return agg.
Proof.
  split.
  - intros [H|[H|H]]; [exists Average | exists Minimum | exists Maximum];
      by apply aggregationTypeFromMetric_name.
  - intros [agg Hagg]. apply aggregationTypeFromMetric_name in Hagg.
    unfold Supported. destruct agg; simpl in Hagg; auto.
Qed.

(** X1.  The aggregation type of a metric is the one whose name is the
    statistic, letter for letter; every other statistic is thrown back in
    the message of the error. *)
Theorem aggregation_type_by_name (m : cloudwatch.Metric) :
  (∀ agg, aggregationTypeFromMetric m = Return agg
          ↔ cloudwatch.statistic m = aggregationName agg) ∧
  (∀ e, aggregationTypeFromMetric m = Throw e
        ↔ ¬ Supported (cloudwatch.statistic m) ∧
          e = Error ("Cannot only scale on 'Minimum', 'Maximum', 'Average' metrics, got "
                     +:+ cloudwatch.statistic m)).
Proof.
  split; [apply aggregationTypeFromMetric_name|].
  intros e. split.
  - intros Hthrow. split.
    + intros [agg Hagg]%aggregationTypeFromMetric_Supported. congruence.
    + revert Hthrow. unfold aggregationTypeFromMetric.
      repeat case_bool_decide; intros [= <-]; done.
  - intros [Hnot ->]. apply aggregationTypeFromMetric_unsupported.
    unfold Supported in Hnot. unfold Unsupported. tauto.
Qed.

Lemma lowerBranch_returns props ivs idx :
  (∃ r, lowerBranch props ivs idx = Return r) ↔
  (∀ k, idx = Some k → k < length ivs ∧ Supported (cloudwatch.statistic (metric props))).
Proof.
  destruct idx as [k|]; split.
  - intros [r Hr] k' [= <-].
    apply lowerBranch_Return in Hr as (iv & agg & table & Hiv & Hagg & _).
    split; [by eapply lookup_lt_Some|].
    apply aggregationTypeFromMetric_Supported. eauto.
  - intros Hk. destruct (Hk k eq_refl) as [Hlt Hsup].
    destruct (lookup_lt_is_Some_2 ivs k Hlt) as [iv Hiv].
    apply aggregationTypeFromMetric_Supported in Hsup as [agg Hagg].
    destruct (lowerBranch_Some props ivs k iv agg Hiv Hagg) as (table & _ & Hrun).
    eauto.
  - done.
  - intros _. by eexists.
Qed.

Lemma upperBranch_returns props ivs idx :
  (∃ r, upperBranch props ivs idx = Return r) ↔
  (∀ k, idx = Some k → k < length ivs ∧ Supported (cloudwatch.statistic (metric props))).
Proof.
  destruct idx as [k|]; split.
  - intros [r Hr] k' [= <-].
    apply upperBranch_Return in Hr as (iv & agg & table & Hiv & Hagg & _).
    split; [by eapply lookup_lt_Some|].
    apply aggregationTypeFromMetric_Supported. eauto.
  - intros Hk. destruct (Hk k eq_refl) as [Hlt Hsup].
    destruct (lookup_lt_is_Some_2 ivs k Hlt) as [iv Hiv].
    apply aggregationTypeFromMetric_Supported in Hsup as [agg Hagg].
    destruct (upperBranch_Some props ivs k iv agg Hiv Hagg) as (table & _ & Hrun).
    eauto.
  - done.
  - intros _. by eexists.
Qed.

(** X2.  The constructor returns a policy exactly when there are two
    scaling steps at least, the normalizer returns, and every alarm index
    that is derived is an index of the normalized intervals and comes with a
    statistic that has an aggregation type. *)
Theorem construction_succeeds_iff `{IntervalUtils} (props : StepScalingPolicyProps) :
  (∃ p, newStepScalingPolicy props = Return p) ↔
  2 ≤ length (scalingSteps props) ∧
  ∃ ivs,
    normalizeIntervals (scalingSteps props) (changesAreAbsolute props) = Return ivs ∧
    ∀ k, lowerAlarmIntervalIndex (findAlarmThresholds ivs) = Some k ∨
         upperAlarmIntervalIndex (findAlarmThresholds ivs) = Some k →
         k < length ivs ∧ Supported (cloudwatch.statistic (metric props)).
Proof.
  split.
  - intros [p Hp].
    apply newStepScalingPolicy_Return in Hp as (ivs & Hlen & Hivs & Hlo & Hup).
    split; [done|]. exists ivs. split; [done|].
    intros k [Hk|Hk].
    + eapply lowerBranch_returns; eauto.
    + eapply upperBranch_returns; eauto.
  - intros (Hlen & ivs & Hivs & Hidx).
    destruct (proj2 (lowerBranch_returns props ivs
                (lowerAlarmIntervalIndex (findAlarmThresholds ivs))))
      as [[la lc] Hlo]; [by auto|].
    destruct (proj2 (upperBranch_returns props ivs
                (upperAlarmIntervalIndex (findAlarmThresholds ivs))))
      as [[ua uc] Hup]; [by auto|].
    unfold newStepScalingPolicy. rewrite bool_decide_false by lia.
    rewrite Hivs. simpl. rewrite Hlo. simpl. rewrite Hup. simpl. eauto.
Qed.

Lemma lowerBranch_None props ivs : lowerBranch props ivs None = Return (None, None).
Proof. reflexivity. Qed.

Lemma upperBranch_None props ivs : upperBranch props ivs None = Return (None, None).
Proof. reflexivity. Qed.

(** The step tables of a policy, read from the actions. *)
Lemma step_tables_shape `{IntervalUtils} props ivs p :
  normalizeIntervals (scalingSteps props) (changesAreAbsolute props) = Return ivs →
  newStepScalingPolicy props = Return p →
  (∀ act, lowerAction p = Some act →
     ∃ k iv, lowerAlarmIntervalIndex (findAlarmThresholds ivs) = Some k ∧
             ivs !! k = Some iv ∧
             LowerTable ivs (upper iv) k (action.adjustments act)) ∧
  (∀ act, upperAction p = Some act →
     ∃ k iv, upperAlarmIntervalIndex (findAlarmThresholds ivs) = Some k ∧
             ivs !! k = Some iv ∧
             UpperTable ivs (lower iv) k (action.adjustments act)).
Proof.
  intros Hivs Hrun.
  apply newStepScalingPolicy_Return in Hrun as (ivs' & _ & Hivs' & Hlo & Hup).
  assert (ivs' = ivs) as -> by congruence.
  split; intros act Hact.
  - destruct (lowerAlarmIntervalIndex _) as [k|].
    + apply lowerBranch_Return in Hlo as (iv & agg & table & Hiv & _ & Htable & Heq).
      injection Heq as _ Heq. rewrite Hact in Heq. injection Heq as ->.
      by exists k, iv.
    + rewrite lowerBranch_None in Hlo. injection Hlo as _ Heq. congruence.
  - destruct (upperAlarmIntervalIndex _) as [k|].
    + apply upperBranch_Return in Hup as (iv & agg & table & Hiv & _ & Htable & Heq).
      injection Heq as _ Heq. rewrite Hact in Heq. injection Heq as ->.
      by exists k, iv.
    + rewrite upperBranch_None in Hup. injection Hup as _ Heq. congruence.
Qed.

(** X3.  In a policy the constructor returns, an alarm and its action come
    together, and they are there exactly when the alarm index of their
    direction is defined.  The lower alarm triggers the action LowerPolicy
    and nothing else, the upper alarm the action UpperPolicy. *)
Theorem alarms_and_actions_in_pairs `{IntervalUtils} props ivs p :
  normalizeIntervals (scalingSteps props) (changesAreAbsolute props) = Return ivs →
  newStepScalingPolicy props = Return p →
  (match lowerAlarmIntervalIndex (findAlarmThresholds ivs) with
   | Some _ => ∃ alarm act,
       lowerAlarm p = Some alarm ∧ lowerAction p = Some act ∧
       action.actionId act = "LowerPolicy" ∧
       cloudwatch.alarmActions alarm = [action.actionId act]
   | None => lowerAlarm p = None ∧ lowerAction p = None
   end) ∧
  (match upperAlarmIntervalIndex (findAlarmThresholds ivs) with
   | Some _ => ∃ alarm act,
       upperAlarm p = Some alarm ∧ upperAction p = Some act ∧
       action.actionId act = "UpperPolicy" ∧
       cloudwatch.alarmActions alarm = [action.actionId act]
   | None => upperAlarm p = None ∧ upperAction p = None
   end).
Proof.
  intros Hivs Hrun.
  apply newStepScalingPolicy_Return in Hrun as (ivs' & _ & Hivs' & Hlo & Hup).
  assert (ivs' = ivs) as -> by congruence.
  split.
  - destruct (lowerAlarmIntervalIndex _) as [k|].
    + apply lowerBranch_Return in Hlo as (iv & agg & table & _ & _ & _ & Heq).
      injection Heq as -> ->. eexists _, _. by repeat split.
    + rewrite lowerBranch_None in Hlo. by injection Hlo as <- <-.
  - destruct (upperAlarmIntervalIndex _) as [k|].
    + apply upperBranch_Return in Hup as (iv & agg & table & _ & _ & _ & Heq).
      injection Heq as -> ->. eexists _, _. by repeat split.
    + rewrite upperBranch_None in Hup. by injection Hup as <- <-.
Qed.

(** X4.  Both actions of a policy get the aggregation type named by the
    statistic of the metric, and the adjustment type, the cooldown, the
    minimal adjustment magnitude and the group of the properties as they
    were supplied. *)
Theorem actions_carry_the_properties `{IntervalUtils} props p act :
  newStepScalingPolicy props = Return p →
  lowerAction p = Some act ∨ upperAction p = Some act →
  cloudwatch.statistic (metric props)
    = aggregationName (action.metricAggregationType (action.props act)) ∧
  action.adjustmentType (action.props act) = adjustmentType props ∧
  action.cooldownSeconds (action.props act) = cooldownSeconds props ∧
  action.minAdjustmentMagnitude (action.props act) = minAdjustmentMagnitude props ∧
  action.autoScalingGroup (action.props act) = autoScalingGroup props.
Proof.
  intros Hrun Hact.
  apply newStepScalingPolicy_Return in Hrun as (ivs & _ & _ & Hlo & Hup).
  destruct Hact as [Hact|Hact].
  - destruct (lowerAlarmIntervalIndex _) as [k|].
    + apply lowerBranch_Return in Hlo as (iv & agg & table & _ & Hagg & _ & Heq).
      injection Heq as _ Heq. rewrite Hact in Heq. injection Heq as ->.
      apply aggregationTypeFromMetric_name in Hagg. by repeat split.
    + rewrite lowerBranch_None in Hlo. injection Hlo as _ Heq. congruence.
  - destruct (upperAlarmIntervalIndex _) as [k|].
    + apply upperBranch_Return in Hup as (iv & agg & table & _ & Hagg & _ & Heq).
      injection Heq as _ Heq. rewrite Hact in Heq. injection Heq as ->.
      apply aggregationTypeFromMetric_name in Hagg. by repeat split.
    + rewrite upperBranch_None in Hup. injection Hup as _ Heq. congruence.
Qed.

(** X5.  The constructor never reads [estimatedInstanceWarmupSeconds]:
    whatever is supplied for it, the outcome is the same policy or the same
    exception. *)
Theorem estimated_warmup_is_ignored `{IntervalUtils} props (w : option Z) :
  newStepScalingPolicy (setEstimatedInstanceWarmupSeconds props w)
  = newStepScalingPolicy props.
Proof. reflexivity. Qed.

(** X6.  When the normalized intervals are contiguous, so are the step
    tables: walking outward, each adjustment starts where the one before
    it stopped. *)
Theorem step_tables_are_contiguous `{IntervalUtils} props ivs p :
  normalizeIntervals (scalingSteps props) (changesAreAbsolute props) = Return ivs →
  Contiguous ivs →
  newStepScalingPolicy props = Return p →
  (∀ act j adj adj',
     lowerAction p = Some act →
     action.adjustments act !! j = Some adj →
     action.adjustments act !! S j = Some adj' →
     is_Some (lowerBound adj) ∧ lowerBound adj = upperBound adj') ∧
  (∀ act j adj adj',
     upperAction p = Some act →
     action.adjustments act !! j = Some adj →
     action.adjustments act !! S j = Some adj' →
     is_Some (upperBound adj) ∧ upperBound adj = lowerBound adj').
Proof.
  intros Hivs Hcont Hrun.
  pose proof (step_tables_shape props ivs p Hivs Hrun) as [Hlo Hup].
  split; intros act j adj adj' Hact Hadj Hadj'.
  - destruct (Hlo act Hact) as (k & iv & _ & _ & Hlen & Htable).
    pose proof (lookup_lt_Some _ _ _ Hadj') as Hj. rewrite Hlen in Hj.
    destruct (Htable (k - j) ltac:(lia)) as (a & x & Ha & Hx & _ & _ & Hlb).
    destruct (Htable (k - S j) ltac:(lia)) as (b & y & Hb & Hy & _ & Hub & _).
    replace (k - (k - j)) with j in Hx by lia.
    replace (k - (k - S j)) with (S j) in Hy by lia.
    assert (x = adj) as -> by congruence. assert (y = adj') as -> by congruence.
    replace (k - j) with (S (k - S j)) in Ha, Hlb by lia.
    rewrite Hlb, Hub, (Hcont _ _ _ Hb Ha). eauto.
  - destruct (Hup act Hact) as (k & iv & _ & _ & Hlen & Htable).
    pose proof (lookup_lt_Some _ _ _ Hadj') as Hj. rewrite Hlen in Hj.
    destruct (Htable (k + j) ltac:(lia)) as (a & x & Ha & Hx & _ & _ & Hub).
    destruct (Htable (k + S j) ltac:(lia)) as (b & y & Hb & Hy & _ & Hlb & _).
    replace (k + j - k) with j in Hx by lia.
    replace (k + S j - k) with (S j) in Hy by lia.
    assert (x = adj) as -> by congruence. assert (y = adj') as -> by congruence.
    replace (k + S j) with (S (k + j)) in Hb by lia.
    rewrite Hub, Hlb, (Hcont _ _ _ Ha Hb).
    rewrite decide_False by lia. eauto.
Qed.

(** ** The sign of the bounds *)

Section Ascending.
Variable ivs : list NormalizedInterval.
Hypothesis Hcont : Contiguous ivs.
Hypothesis Hfilled : InnerBoundsFilled ivs.
Hypothesis Hordered : Ordered ivs.

Lemma upper_bounds_ascend d :
  ∀ i iv ivk a t,
    ivs !! i = Some iv → ivs !! (i + d) = Some ivk →
    upper iv = Some a → upper ivk = Some t → (a ≤ t)%Z.
Proof.
  induction d as [|d IH]; intros i iv ivk a t Hiv Hivk Ha Ht.
  - rewrite Nat.add_0_r in Hivk. assert (ivk = iv) as -> by congruence.
    assert (a = t) by congruence. lia.
  - pose proof (lookup_lt_Some _ _ _ Hivk) as Hlt.
    destruct (lookup_lt_is_Some_2 ivs (S i) ltac:(lia)) as [next Hnext].
    pose proof (Hcont _ _ _ Hiv Hnext) as Hshare. simpl in Hshare.
    assert (is_Some (upper next)) as [b Hb].
    { destruct d as [|d].
      - replace (i + 1) with (S i) in Hivk by lia.
        assert (next = ivk) as -> by congruence. eauto.
      - by apply (Hfilled (S i) next Hnext); lia. }
    assert (a ≤ b)%Z.
    { apply (Hordered (S i) next a b Hnext); congruence. }
    assert (b ≤ t)%Z; [|lia].
    apply (IH (S i) next ivk b t); try done.
    by replace (S i + d) with (i + S d) by lia.
Qed.

Lemma lower_bounds_ascend d :
  ∀ k ivk iv t a,
    ivs !! k = Some ivk → ivs !! (k + d) = Some iv →
    lower ivk = Some t → lower iv = Some a → (t ≤ a)%Z.
Proof.
  induction d as [|d IH]; intros k ivk iv t a Hivk Hiv Ht Ha.
  - rewrite Nat.add_0_r in Hiv. assert (ivk = iv) as -> by congruence.
    assert (a = t) by congruence. lia.
  - replace (k + S d) with (S (k + d)) in Hiv by lia.
    pose proof (lookup_lt_Some _ _ _ Hiv) as Hlt.
    destruct (lookup_lt_is_Some_2 ivs (k + d) ltac:(lia)) as [prev Hprev].
    pose proof (Hcont _ _ _ Hprev Hiv) as Hshare. simpl in Hshare.
    assert (is_Some (lower prev)) as [c Hc].
    { destruct d as [|d].
      - rewrite Nat.add_0_r in Hprev.
        assert (prev = ivk) as -> by congruence. eauto.
      - by apply (Hfilled (k + S d) prev Hprev); lia. }
    assert (c ≤ a)%Z.
    { apply (Hordered (k + d) prev c a Hprev); congruence. }
    assert (t ≤ c)%Z; [|lia].
    by apply (IH k ivk prev t c).
Qed.

Lemma LowerTable_not_positive k ivk table adj z :
  ivs !! k = Some ivk →
  LowerTable ivs (upper ivk) k table →
  adj ∈ table → z ∈ boundsOf adj → (z ≤ 0)%Z.
Proof.
  intros Hivk [Hlen Htable] [j Hj]%list_elem_of_lookup Hz.
  pose proof (lookup_lt_Some _ _ _ Hj) as Hlt. rewrite Hlen in Hlt.
  pose proof (lookup_lt_Some _ _ _ Hivk) as Hk.
  destruct (Htable (k - j) ltac:(lia)) as (iv & x & Hiv & Hx & _ & Hub & Hlb).
  replace (k - (k - j)) with j in Hx by lia.
  assert (x = adj) as -> by congruence.
  assert (∀ u t, upper iv = Some u → upper ivk = Some t → (u ≤ t)%Z) as Hup.
  { intros u t Hu Ht. apply (upper_bounds_ascend j (k - j) iv ivk); try done.
    by replace (k - j + j) with k by lia. }
  unfold boundsOf in Hz. simpl in Hz. rewrite Hub in Hz.
  apply elem_of_app in Hz as [Hz|Hz].
  - destruct (k - j) as [|i] eqn:Ei; rewrite Hlb in Hz; [by apply elem_of_nil in Hz|].
    destruct (lower iv) as [l|] eqn:El, (upper ivk) as [t|] eqn:Et; simpl in Hz;
      try by apply elem_of_nil in Hz.
    apply list_elem_of_singleton in Hz as ->.
    destruct (decide (j = 0)) as [->|Hne].
    + assert (iv = ivk) as -> by (rewrite Nat.sub_0_r in Ei; congruence).
      assert (l ≤ t)%Z by by eapply Hordered. lia.
    + assert (is_Some (upper iv)) as [u Hu].
      { apply (Hfilled (S i) iv Hiv). lia. }
      assert (l ≤ u)%Z by by eapply Hordered.
      assert (u ≤ t)%Z by by apply Hup. lia.
  - rewrite app_nil_r in Hz.
    destruct (upper iv) as [u|] eqn:Eu, (upper ivk) as [t|] eqn:Et; simpl in Hz;
      try by apply elem_of_nil in Hz.
    apply list_elem_of_singleton in Hz as ->.
    assert (u ≤ t)%Z by by apply Hup. lia.
Qed.

Lemma UpperTable_not_negative k ivk table adj z :
  ivs !! k = Some ivk →
  UpperTable ivs (lower ivk) k table →
  adj ∈ table → z ∈ boundsOf adj → (0 ≤ z)%Z.
Proof.
  intros Hivk [Hlen Htable] [j Hj]%list_elem_of_lookup Hz.
  pose proof (lookup_lt_Some _ _ _ Hj) as Hlt. rewrite Hlen in Hlt.
  pose proof (lookup_lt_Some _ _ _ Hivk) as Hk.
  destruct (Htable (k + j) ltac:(lia)) as (iv & x & Hiv & Hx & _ & Hlb & Hub).
  replace (k + j - k) with j in Hx by lia.
  assert (x = adj) as -> by congruence.
  assert (∀ l t, lower iv = Some l → lower ivk = Some t → (t ≤ l)%Z) as Hlo.
  { intros l t Hl Ht. by apply (lower_bounds_ascend j k ivk iv). }
  unfold boundsOf in Hz. simpl in Hz. rewrite Hlb in Hz.
  apply elem_of_app in Hz as [Hz|Hz].
  - destruct (lower iv) as [l|] eqn:El, (lower ivk) as [t|] eqn:Et; simpl in Hz;
      try by apply elem_of_nil in Hz.
    apply list_elem_of_singleton in Hz as ->.
    assert (t ≤ l)%Z by by apply Hlo. lia.
  - rewrite app_nil_r, Hub in Hz. case_decide; [by apply elem_of_nil in Hz|].
    destruct (upper iv) as [u|] eqn:Eu, (lower ivk) as [t|] eqn:Et; simpl in Hz;
      try by apply elem_of_nil in Hz.
    apply list_elem_of_singleton in Hz as ->.
    assert (is_Some (lower iv)) as [l Hl].
    { destruct (decide (j = 0)) as [->|Hne].
      - rewrite Nat.add_0_r in Hiv. assert (iv = ivk) as -> by congruence. eauto.
      - apply (Hfilled (k + j) iv Hiv). lia. }
    assert (l ≤ u)%Z by by eapply Hordered.
    assert (t ≤ l)%Z by by apply Hlo. lia.
Qed.

End Ascending.

(** X7.  When the normalized intervals are contiguous, have all their inner
    bounds and none ends before it starts, no bound in the step table of the
    lower alarm is above 0 and no bound in the step table of the upper alarm
    is below 0. *)
Theorem step_bounds_face_away_from_the_threshold `{IntervalUtils} props ivs p :
  normalizeIntervals (scalingSteps props) (changesAreAbsolute props) = Return ivs →
  Contiguous ivs → InnerBoundsFilled ivs → Ordered ivs →
  newStepScalingPolicy props = Return p →
  (∀ act adj z, lowerAction p = Some act →
     adj ∈ action.adjustments act → z ∈ boundsOf adj → (z ≤ 0)%Z) ∧
  (∀ act adj z, upperAction p = Some act →
     adj ∈ action.adjustments act → z ∈ boundsOf adj → (0 ≤ z)%Z).
Proof.
  intros Hivs Hcont Hfilled Hordered Hrun.
  pose proof (step_tables_shape props ivs p Hivs Hrun) as [Hlo Hup].
  split; intros act adj z Hact Hadj Hz.
  - destruct (Hlo act Hact) as (k & iv & _ & Hiv & Htable).
    by eapply LowerTable_not_positive.
  - destruct (Hup act Hact) as (k & iv & _ & Hiv & Htable).
    by eapply UpperTable_not_negative.
Qed.

(** * The path part of an apigateway resource *)

(** ** Strings *)

Lemma substring_0_0 s : String.substring 0 0 s = "".
Proof. by destruct s. Qed.

Lemma substring_0_append p s :
  String.substring 0 (String.length p) (p +:+ s) = p.
Proof.
  induction p as [|c p IH]; simpl; [apply substring_0_0 | by rewrite IH].
Qed.

Lemma substring_0_length s : String.substring 0 (String.length s) s = s.
Proof. induction s as [|c s IH]; simpl; [done | by rewrite IH]. Qed.

Lemma substring_skip_append p s m :
  String.substring (String.length p) m (p +:+ s) = String.substring 0 m s.
Proof. induction p as [|c p IH]; simpl; done. Qed.

Lemma string_length_append p s :
  String.length (p +:+ s) = String.length p + String.length s.
Proof. induction p as [|c p IH]; simpl; [done | by rewrite IH]. Qed.

Lemma list_ascii_of_string_append p s :
  String.list_ascii_of_string (p +:+ s)
  = String.list_ascii_of_string p ++ String.list_ascii_of_string s.
Proof. induction p as [|c p IH]; simpl; [done | by rewrite IH]. Qed.

Lemma last_character_split s :
  s ≠ "" →
  String.substring (String.length s - 1) 1 s = "}" →
  s = String.substring 0 (String.length s - 1) s +:+ "}".
Proof.
  induction s as [|c s IH]; [done|]. intros _ Hlast.
  destruct s as [|c' s].
  - simpl in *. by injection Hlast as ->.
  - replace (String.length (String c (String c' s)) - 1)
      with (S (String.length (String c' s) - 1)) in * by (simpl; lia).
    change (String.substring (S (String.length (String c' s) - 1)) 1
              (String c (String c' s)))
      with (String.substring (String.length (String c' s) - 1) 1 (String c' s))
      in Hlast.
    change (String.substring 0 (S (String.length (String c' s) - 1))
              (String c (String c' s)))
      with (String c (String.substring 0 (String.length (String c' s) - 1)
                        (String c' s))).
    change (String c ?x +:+ ?y) with (String c (x +:+ y)). f_equal.
    by apply IH.
Qed.

(** ** Stripping the braces *)

Lemma startsWith_brace part :
  apigateway.startsWith part "{" = true ↔ ∃ rest, part = "{" +:+ rest.
Proof.
  unfold apigateway.startsWith. split.
  - destruct part as [|c rest]; [done|].
    change (String.prefix "{" (String c rest))
      with (if ascii_dec "{" c then String.prefix "" rest else false).
    destruct (ascii_dec "{" c) as [<-|]; [eauto | done].
  - intros [rest ->].
    change (String.prefix "{" ("{" +:+ rest))
      with (if ascii_dec "{" "{" then String.prefix "" rest else false).
    destruct (ascii_dec "{" "{"); [by destruct rest | done].
Qed.

Lemma endsWith_brace part :
  apigateway.endsWith part "}" = true ↔ ∃ rest, part = rest +:+ "}".
Proof.
  unfold apigateway.endsWith. split.
  - intros [Hlen Heq]%andb_true_iff. apply Nat.leb_le in Hlen.
    apply String.eqb_eq in Heq. simpl in *.
    eexists. apply last_character_split; [|done]. by destruct part.
  - intros [rest ->]. apply andb_true_iff. split.
    + apply Nat.leb_le. rewrite string_length_append. simpl. lia.
    + apply String.eqb_eq. rewrite string_length_append. simpl.
      replace (String.length rest + 1 - 1) with (String.length rest) by lia.
      by rewrite substring_skip_append.
Qed.

(** A part in braces is the braces around what [substr] keeps of it. *)
Lemma braces_decompose part :
  apigateway.startsWith part "{" && apigateway.endsWith part "}" = true ↔
  ∃ name, part = "{" +:+ name +:+ "}".
Proof.
  rewrite andb_true_iff, startsWith_brace, endsWith_brace. split.
  - intros [[rest ->] [init Hinit]].
    destruct init as [|c init].
    + simpl in Hinit. discriminate Hinit.
    + simpl in Hinit. injection Hinit as Hc Hrest.
      change ("" +:+ rest) with rest in Hrest.
      exists init. by rewrite Hrest.
  - intros [name ->]. split; [eauto|]. by exists ("{" +:+ name).
Qed.

Lemma substr_braces name :
  apigateway.substr ("{" +:+ name +:+ "}") 1
    (String.length ("{" +:+ name +:+ "}") - 2) = name.
Proof.
  unfold apigateway.substr.
  change ("{" +:+ name +:+ "}") with (String "{" (name +:+ "}")).
  replace (String.length (String "{" (name +:+ "}")) - 2)
    with (String.length name)
    by (simpl; rewrite string_length_append; simpl; lia).
  apply substring_0_append.
Qed.

(** ** The test of the regular expression *)

Lemma testPathPart_spec s :
  apigateway.testPathPart s = true ↔
  s ≠ "" ∧ ∀ c, c ∈ String.list_ascii_of_string s → apigateway.isPathChar c = true.
Proof.
  unfold apigateway.testPathPart. destruct s as [|c s]; simpl.
  - split; [done | by intros [? _]].
  - change (apigateway.isPathChar c && forallb apigateway.isPathChar
              (String.list_ascii_of_string s))
      with (forallb apigateway.isPathChar (c :: String.list_ascii_of_string s)).
    rewrite forallb_forall. split.
    + intros Hall. split; [done|]. intros x Hx. apply Hall.
      by apply list_elem_of_In.
    + intros [_ Hall] x Hx. apply Hall. by apply list_elem_of_In.
Qed.

Lemma testPathPart_no_brace name :
  apigateway.testPathPart name = true →
  apigateway.startsWith name "{" && apigateway.endsWith name "}" = false.
Proof.
  intros [_ Hall]%testPathPart_spec. apply andb_false_iff. left.
  apply not_true_is_false. intros [rest ->]%startsWith_brace.
  specialize (Hall "{"%char). simpl in Hall.
  assert (apigateway.isPathChar "{" = true) as Hno by (apply Hall; left).
  discriminate Hno.
Qed.

Lemma validateResourcePathPart_Return (part : string) :
  apigateway.validateResourcePathPart part = Return tt ↔
  ∃ name,
    (name ≠ "" ∧
     ∀ c, c ∈ String.list_ascii_of_string name → apigateway.isPathChar c = true) ∧
    (part = name ∨ part = "{" +:+ name +:+ "}").
Proof.
  unfold apigateway.validateResourcePathPart. split.
  - destruct (apigateway.startsWith part "{" && apigateway.endsWith part "}") eqn:Eb.
    + apply braces_decompose in Eb as [name ->]. rewrite substr_braces.
      destruct (apigateway.testPathPart name) eqn:Et; [|done].
      intros _. exists name. split; [by apply testPathPart_spec | by right].
    + destruct (apigateway.testPathPart part) eqn:Et; [|done].
      intros _. exists part. split; [by apply testPathPart_spec | by left].
  - intros (name & Hname%testPathPart_spec & [->| ->]).
    + by rewrite testPathPart_no_brace, Hname.
    + rewrite (proj2 (braces_decompose _)) by eauto.
      by rewrite substr_braces, Hname.
Qed.

(** X8.  The accepted path parts are the names of one character at least
    among a-z, A-Z, 0-9, dot, underscore and hyphen, and such a name between
    one pair of braces; everything else is rejected. *)
Theorem accepted_path_parts (part : string) :
  apigateway.validateResourcePathPart part = Return tt ↔
  ∃ name,
    (name ≠ "" ∧
     ∀ c, c ∈ String.list_ascii_of_string name → apigateway.isPathChar c = true) ∧
    (part = name ∨ part = "{" +:+ name +:+ "}").
Proof. apply validateResourcePathPart_Return. Qed.

(** X9.  A path part with a character that is neither in a-zA-Z0-9._- nor
    a brace is rejected, wherever the character stands; the slash is such a
    character. *)
Theorem foreign_character_rejected (part : string) (c : ascii) :
  c ∈ String.list_ascii_of_string part →
  apigateway.isPathChar c = false → c ≠ "{"%char → c ≠ "}"%char →
  ∃ message, apigateway.validateResourcePathPart part = Throw (Error message).
Proof.
  intros Hc Hforeign Hopen Hclose.
  destruct (apigateway.validateResourcePathPart part) as [[]|e] eqn:Hrun.
  - apply validateResourcePathPart_Return in Hrun as (name & [_ Hall] & [->| ->]).
    + rewrite Hall in Hforeign; done.
    + rewrite !list_ascii_of_string_append in Hc. simpl in Hc.
      apply elem_of_cons in Hc as [->|Hc]; [done|].
      apply elem_of_app in Hc as [Hc|Hc].
      * rewrite Hall in Hforeign; done.
      * apply list_elem_of_singleton in Hc. done.
  - revert Hrun. unfold apigateway.validateResourcePathPart.
    destruct (negb _); [|done]. intros [= <-]. eauto.
Qed.

(** X10.  A part in braces is judged by what stands between them, once:
    braces inside the braces are rejected like any other character, and the
    message of the error shows the part without its outer braces. *)
Theorem braces_are_stripped_once (name : string) :
  apigateway.validateResourcePathPart ("{" +:+ name +:+ "}") =
    if apigateway.testPathPart name then Return tt
    else Throw (Error
      ("Resource's path part only allow a-zA-Z0-9._- and curly braces at the beginning and the end: "
       +:+ name)).
Proof.
  unfold apigateway.validateResourcePathPart.
  rewrite (proj2 (braces_decompose _)) by eauto.
  rewrite substr_braces. by destruct (apigateway.testPathPart name).
Qed.

(** * References to queues *)

#[local] Set Warnings "-clear-no-such-hyp".

Section QueueRefProperties.
Context {Key : Type} `{!sqs.EncryptionKeyRef Key}.
Implicit Types q : sqs.QueueRef Key.

Lemma addToResourcePolicy_members statement q :
  sqs.queueArn (sqs.addToResourcePolicy statement q) = sqs.queueArn q ∧
  sqs.encryptionMasterKey (sqs.addToResourcePolicy statement q)
    = sqs.encryptionMasterKey q ∧
  sqs.autoCreatePolicy (sqs.addToResourcePolicy statement q) = sqs.autoCreatePolicy q ∧
  sqs.notifyingBuckets (sqs.addToResourcePolicy statement q) = sqs.notifyingBuckets q.
Proof.
  unfold sqs.addToResourcePolicy.
  destruct q as [a u k [] [p|] b]; simpl; done.
Qed.

Lemma addToResourcePolicy_statements statement q :
  sqs.keepsPolicy q →
  sqs.statements (sqs.addToResourcePolicy statement q) = sqs.statements q ++ [statement] ∧
  is_Some (sqs.policy (sqs.addToResourcePolicy statement q)).
Proof.
  unfold sqs.keepsPolicy, sqs.addToResourcePolicy, sqs.statements.
  destruct q as [a u k [] [p|] b]; simpl; intros [?|[? ?]]; try done; eauto.
Qed.

Lemma addToResourcePolicy_imported statement q :
  sqs.autoCreatePolicy q = false → sqs.policy q = None →
  sqs.addToResourcePolicy statement q = q.
Proof.
  unfold sqs.addToResourcePolicy.
  destruct q as [a u k c p b]; simpl. by intros -> ->.
Qed.

Lemma addToResourcePolicy_prefix statement q :
  sqs.statements q `prefix_of` sqs.statements (sqs.addToResourcePolicy statement q).
Proof.
  unfold sqs.addToResourcePolicy, sqs.statements.
  destruct q as [a u k [] [p|] b]; simpl;
    try apply prefix_app_r; try apply prefix_nil; done.
Qed.

(** What a notification that returns has done. *)
Lemma notification_Return bucketArn bucketId q d q' :
  sqs.asBucketNotificationDestination bucketArn bucketId q = (Return d, q') →
  d = sqs.destinationOf q' ∧
  sqs.queueArn q' = sqs.queueArn q ∧
  sqs.autoCreatePolicy q' = sqs.autoCreatePolicy q ∧
  sqs.notifyingBuckets q' = sqs.notifyingBuckets q ∪ {[ bucketId ]} ∧
  sqs.statements q' =
    (if decide (bucketId ∈ sqs.notifyingBuckets q) then sqs.statements q
     else sqs.statements
            (sqs.addToResourcePolicy (sqs.sendMessageStatement q bucketArn) q)) ∧
  sqs.policy q' =
    (if decide (bucketId ∈ sqs.notifyingBuckets q) then sqs.policy q
     else sqs.policy
            (sqs.addToResourcePolicy (sqs.sendMessageStatement q bucketArn) q)).
Proof.
  unfold sqs.asBucketNotificationDestination.
  destruct (addToResourcePolicy_members (sqs.sendMessageStatement q bucketArn) q)
    as (Harn & Hkey & Hauto & Hbuckets).
  case_bool_decide as Hin.
  - rewrite !decide_False by done.
    destruct (sqs.encryptionMasterKey _) as [key|].
    + destruct (sqs.keyAddToResourcePolicy key sqs.keyStatement false) as [key'|e];
        [|done].
      intros [= <- <-]. simpl. rewrite Hbuckets. done.
    + intros [= <- <-]. simpl. rewrite Hbuckets. done.
  - rewrite !decide_True by done.
    intros [= <- <-]. repeat split; try done. set_solver.
Qed.

(** X11.  A bucket is told about once: after a notification for a bucket
    identifier has returned, another one for the same identifier, whatever
    the ARN, returns the same destination and leaves the queue as it is. *)
Theorem notification_is_idempotent (bucketArn bucketArn' bucketId : string) q d q' :
  sqs.asBucketNotificationDestination bucketArn bucketId q = (Return d, q') →
  sqs.asBucketNotificationDestination bucketArn' bucketId q' = (Return d, q').
Proof.
  intros Hrun.
  apply notification_Return in Hrun as (-> & _ & _ & Hbuckets & _).
  unfold sqs.asBucketNotificationDestination.
  rewrite bool_decide_false; [done|]. rewrite Hbuckets. set_solver.
Qed.

Lemma notifyAll_count buckets :
  ∀ q q', sqs.keepsPolicy q →
    sqs.notifyAll buckets q = Return q' →
    sqs.notifyingBuckets q' = sqs.notifyingBuckets q ∪ list_to_set buckets.*2 ∧
    length (sqs.statements q') + size (sqs.notifyingBuckets q)
      = length (sqs.statements q) + size (sqs.notifyingBuckets q').
Proof.
  induction buckets as [|[bucketArn bucketId] rest IH]; intros q q' Hkeeps Hrun.
  - injection Hrun as <-. split; [set_solver | done].
  - simpl in Hrun.
    destruct (sqs.asBucketNotificationDestination bucketArn bucketId q)
      as [[d|e] q1] eqn:Hone; [|done].
    apply notification_Return in Hone as (_ & _ & Hauto & Hbuckets & Hstmts & Hpol).
    destruct (addToResourcePolicy_statements
                (sqs.sendMessageStatement q bucketArn) q Hkeeps) as [Hadd Hsome].
    assert (sqs.keepsPolicy q1) as Hkeeps1.
    { destruct Hkeeps as [?|?]; [left; congruence|]. right. rewrite Hpol.
      by case_decide. }
    destruct (IH q1 q' Hkeeps1 Hrun) as [Hall Hcount].
    split; [rewrite Hall, Hbuckets; set_solver|].
    rewrite Hstmts, Hbuckets in Hcount. case_decide as Hin.
    + replace (sqs.notifyingBuckets q ∪ {[bucketId]}) with (sqs.notifyingBuckets q)
        in Hcount by set_solver. lia.
    + rewrite Hadd, length_app, size_union, size_singleton in Hcount by set_solver.
      simpl in Hcount. lia.
Qed.

(** X12.  On a queue that creates its policy and has neither a policy nor a
    notifying bucket yet, notifications that all return leave one statement
    in the policy for each distinct bucket identifier, however often an
    identifier occurs. *)
Theorem one_statement_per_bucket (buckets : list (string * string)) q q' :
  sqs.autoCreatePolicy q = true →
  sqs.policy q = None →
  sqs.notifyingBuckets q = ∅ →
  sqs.notifyAll buckets q = Return q' →
  sqs.notifyingBuckets q' = list_to_set buckets.*2 ∧
  length (sqs.statements q') = size (sqs.notifyingBuckets q').
Proof.
  intros Hauto Hpolicy Hempty Hrun.
  destruct (notifyAll_count buckets q q' (or_introl Hauto) Hrun) as [Hall Hcount].
  rewrite Hempty in Hall, Hcount. unfold sqs.statements in Hcount at 2.
  rewrite Hpolicy, size_empty in Hcount. simpl in Hcount.
  split; [rewrite Hall; set_solver | lia].
Qed.

Lemma call_imported c q :
  sqs.autoCreatePolicy q = false → sqs.policy q = None →
  sqs.autoCreatePolicy (sqs.call c q) = false ∧ sqs.policy (sqs.call c q) = None.
Proof.
  intros Hauto Hpolicy. destruct c as [statement|bucketArn bucketId]; simpl.
  - by rewrite addToResourcePolicy_imported.
  - unfold sqs.asBucketNotificationDestination.
    rewrite addToResourcePolicy_imported by done.
    case_bool_decide; [|done].
    destruct (sqs.encryptionMasterKey q) as [key|]; [|done].
    by destruct (sqs.keyAddToResourcePolicy key sqs.keyStatement false).
Qed.

Lemma calls_imported cs :
  ∀ q, sqs.autoCreatePolicy q = false → sqs.policy q = None →
       sqs.autoCreatePolicy (sqs.calls cs q) = false ∧ sqs.policy (sqs.calls cs q) = None.
Proof.
  induction cs as [|c cs IH]; intros q Hauto Hpolicy; [done|].
  destruct (call_imported c q Hauto Hpolicy) as [Hauto' Hpolicy'].
  by apply IH.
Qed.

(** X13.  An imported queue never gets a policy: whatever was called on it
    before, it has no statement, [addToResourcePolicy] leaves it as it is,
    and the destination a notification returns depends on [undefined]. *)
Theorem imported_queue_has_no_policy (props : sqs.QueueRefProps)
    (cs : list sqs.QueueCall) :
  let q := sqs.calls cs (sqs.newImportedQueue props) in
  sqs.policy q = None ∧
  sqs.statements q = [] ∧
  (∀ statement, sqs.addToResourcePolicy statement q = q) ∧
  (∀ bucketArn bucketId d q',
     sqs.asBucketNotificationDestination bucketArn bucketId q = (Return d, q') →
     sqs.dependencies d = [None] ∧ sqs.statements q' = []).
Proof.
  intros q.
  destruct (calls_imported cs (sqs.newImportedQueue props) eq_refl eq_refl)
    as [Hauto Hpolicy]. fold q in Hauto, Hpolicy.
  split; [done|]. split; [unfold sqs.statements; by rewrite Hpolicy|].
  split; [intros; by apply addToResourcePolicy_imported|].
  intros bucketArn bucketId d q' Hrun.
  apply notification_Return in Hrun as (-> & _ & _ & _ & _ & Hpol).
  rewrite addToResourcePolicy_imported in Hpol by done.
  assert (sqs.policy q' = None) as Hnone by (case_decide; congruence).
  unfold sqs.destinationOf, sqs.statements. by rewrite Hnone.
Qed.

Lemma call_grows c q :
  sqs.queueArn (sqs.call c q) = sqs.queueArn q ∧
  sqs.notifyingBuckets q ⊆ sqs.notifyingBuckets (sqs.call c q) ∧
  sqs.statements q `prefix_of` sqs.statements (sqs.call c q).
Proof.
  destruct c as [statement|bucketArn bucketId]; simpl.
  - destruct (addToResourcePolicy_members statement q) as (-> & _ & _ & ->).
    split; [done|]. split; [done|]. apply addToResourcePolicy_prefix.
  - unfold sqs.asBucketNotificationDestination.
    destruct (addToResourcePolicy_members (sqs.sendMessageStatement q bucketArn) q)
      as (Harn & _ & _ & Hbuckets).
    pose proof (addToResourcePolicy_prefix (sqs.sendMessageStatement q bucketArn) q).
    case_bool_decide; [|done].
    destruct (sqs.encryptionMasterKey _) as [key|].
    + destruct (sqs.keyAddToResourcePolicy key sqs.keyStatement false); simpl;
        rewrite ?Hbuckets; repeat split; try done; set_solver.
    + simpl. rewrite ?Hbuckets. repeat split; try done. set_solver.
Qed.

(** X14.  No call takes anything back: through any calls, returned or
    thrown, the queue keeps its ARN, every bucket identifier it has recorded
    and, in their order, the statements its policy had. *)
Theorem queue_only_grows (cs : list sqs.QueueCall) q :
  sqs.queueArn (sqs.calls cs q) = sqs.queueArn q ∧
  sqs.notifyingBuckets q ⊆ sqs.notifyingBuckets (sqs.calls cs q) ∧
  sqs.statements q `prefix_of` sqs.statements (sqs.calls cs q).
Proof.
  revert q. induction cs as [|c cs IH]; intros q; [done|].
  destruct (call_grows c q) as (Harn & Hbuckets & Hstmts).
  destruct (IH (sqs.call c q)) as (Harn' & Hbuckets' & Hstmts').
  change (sqs.calls (c :: cs) q) with (sqs.calls cs (sqs.call c q)).
  split; [congruence|]. split; [set_solver|]. by etrans.
Qed.

Lemma failed_notification bucketArn bucketId q key e :
  sqs.encryptionMasterKey q = Some key →
  sqs.keyAddToResourcePolicy key sqs.keyStatement false = Throw e →
  bucketId ∉ sqs.notifyingBuckets q →
  sqs.asBucketNotificationDestination bucketArn bucketId q
  = (Throw e, sqs.addToResourcePolicy (sqs.sendMessageStatement q bucketArn) q).
Proof.
  intros Hkey Hthrow Hin. unfold sqs.asBucketNotificationDestination.
  rewrite bool_decide_true by done.
  destruct (addToResourcePolicy_members (sqs.sendMessageStatement q bucketArn) q)
    as (_ & -> & _). by rewrite Hkey, Hthrow.
Qed.

(** X15.  When the key of an encrypted queue refuses the statement, the
    notification throws after the policy of the queue was written and
    before the bucket is recorded: each attempt adds the statement of the
    bucket to the policy once more, and the bucket stays unknown. *)
Theorem refused_key_repeats_the_statement (bucketArn bucketId : string) q key e
    (n : nat) :
  sqs.encryptionMasterKey q = Some key →
  sqs.keyAddToResourcePolicy key sqs.keyStatement false = Throw e →
  bucketId ∉ sqs.notifyingBuckets q →
  sqs.keepsPolicy q →
  (sqs.asBucketNotificationDestination bucketArn bucketId q).1 = Throw e ∧
  let q' := sqs.calls
              (replicate n (sqs.CallAsBucketNotificationDestination bucketArn bucketId)) q in
  sqs.notifyingBuckets q' = sqs.notifyingBuckets q ∧
  sqs.statements q' =
    sqs.statements q ++ replicate n (sqs.sendMessageStatement q bucketArn).
Proof.
  intros Hkey Hthrow Hin Hkeeps.
  split; [by erewrite failed_notification|].
  revert q Hkey Hin Hkeeps. induction n as [|n IH]; intros q Hkey Hin Hkeeps.
  - simpl. by rewrite app_nil_r.
  - change (sqs.calls (replicate (S n) ?c) q)
      with (sqs.calls (replicate n c) (sqs.call c q)).
    simpl sqs.call. erewrite failed_notification by done. simpl.
    set (q1 := sqs.addToResourcePolicy (sqs.sendMessageStatement q bucketArn) q).
    destruct (addToResourcePolicy_members (sqs.sendMessageStatement q bucketArn) q)
      as (Harn & Hkey1 & Hauto & Hbuckets). fold q1 in Harn, Hkey1, Hauto, Hbuckets.
    destruct (addToResourcePolicy_statements
                (sqs.sendMessageStatement q bucketArn) q Hkeeps) as [Hadd Hsome].
    fold q1 in Hadd, Hsome.
    destruct (IH q1) as [Hb Hs]; [congruence | by rewrite Hbuckets | by right|].
    split; [congruence|]. rewrite Hs, Hadd.
    assert (sqs.sendMessageStatement q1 bucketArn = sqs.sendMessageStatement q bucketArn)
      as -> by (unfold sqs.sendMessageStatement; by rewrite Harn).
    by rewrite <- app_assoc.
Qed.

(** X16.  A grant gives the principal one more statement, for the ARN of
    this queue and no other resource, with the permissions the comment of
    the method announces; without a principal nothing is granted. *)
Theorem grants_are_as_documented q (p : sqs.Principal) :
  sqs.grantConsumeMessages q None = None ∧
  sqs.grantSendMessages q None = None ∧
  sqs.grantPurge q None = None ∧
  (∃ statement, sqs.grantConsumeMessages q (Some p) = Some (p ++ [statement]) ∧
     sqs.statementResources statement = [sqs.queueArn q] ∧
     sqs.statementActions statement ≡ₚ sqs.documentedConsumeMessages) ∧
  (∃ statement, sqs.grantSendMessages q (Some p) = Some (p ++ [statement]) ∧
     sqs.statementResources statement = [sqs.queueArn q] ∧
     sqs.statementActions statement ≡ₚ sqs.documentedSendMessages) ∧
  (∃ statement, sqs.grantPurge q (Some p) = Some (p ++ [statement]) ∧
     sqs.statementResources statement = [sqs.queueArn q] ∧
     sqs.statementActions statement ≡ₚ sqs.documentedPurge).
Proof.
  repeat split; try done.
  - eexists. split; [reflexivity|]. split; [done|].
    apply (bool_decide_unpack _). by vm_compute.
  - eexists. split; [reflexivity|]. split; [done|].
    apply (bool_decide_unpack _). by vm_compute.
  - eexists. split; [reflexivity|]. split; [done|].
    apply (bool_decide_unpack _). by vm_compute.
Qed.

End QueueRefProperties.

(** * The further properties at concrete inputs *)

Lemma fiveSteps_Contiguous : Contiguous fiveSteps.
Proof. by apply contiguous_Contiguous. Qed.

Lemma fiveSteps_InnerBoundsFilled : InnerBoundsFilled fiveSteps.
Proof.
  intros i iv Hiv. concrete_index i; (split; [intros; eauto; lia | intros; simpl in *; eauto; lia]).
Qed.

Lemma fiveSteps_Ordered : Ordered fiveSteps.
Proof.
  intros i iv l u Hiv Hl Hu.
  concrete_index i; simplify_eq/=; lia.
Qed.

Lemma alarms_and_actions_witness :
  ∃ lo up,
    lowerAlarm fivePolicy = Some lo ∧ upperAlarm fivePolicy = Some up ∧
    cloudwatch.alarmActions lo = ["LowerPolicy"] ∧
    cloudwatch.alarmActions up = ["UpperPolicy"].
Proof.
  destruct (@alarms_and_actions_in_pairs specIntervalUtils
              fiveProps fiveSteps fivePolicy eq_refl eq_refl) as [Hlo Hup].
  destruct Hlo as (lo & lact & Hlo & _ & Hid & Hacts).
  destruct Hup as (up & uact & Hup & _ & Hid' & Hacts').
  exists lo, up. rewrite Hacts, Hacts', Hid, Hid'. done.
Defined.

Lemma actions_carry_witness :
  ∃ act, lowerAction fivePolicy = Some act ∧
         action.metricAggregationType (action.props act) = Maximum ∧
         action.adjustmentType (action.props act) = Some PercentChangeInCapacity.
Proof.
  eexists. split; [reflexivity|].
  destruct (@actions_carry_the_properties specIntervalUtils
              fiveProps fivePolicy _ eq_refl (or_introl eq_refl))
    as (_ & Htype & _).
  split; [reflexivity | exact Htype].
Defined.

Lemma step_tables_contiguous_witness :
  ∃ act first second,
    lowerAction fivePolicy = Some act ∧
    action.adjustments act !! 0 = Some first ∧
    action.adjustments act !! 1 = Some second ∧
    lowerBound first = Some (Num (-10)) ∧
    lowerBound first = upperBound second.
Proof.
  destruct (@step_tables_are_contiguous specIntervalUtils
              fiveProps fiveSteps fivePolicy eq_refl fiveSteps_Contiguous eq_refl)
    as [Hlo _].
  eexists _, _, _. split; [reflexivity|]. split; [reflexivity|].
  split; [reflexivity|]. split; [reflexivity|].
  by destruct (Hlo _ 0 _ _ eq_refl eq_refl eq_refl).
Defined.

Lemma step_bounds_witness :
  ∃ act,
    lowerAction fivePolicy = Some act ∧
    length (action.adjustments act) = 2 ∧
    Forall (λ adj, Forall (λ z, (z ≤ 0)%Z) (boundsOf adj)) (action.adjustments act).
Proof.
  destruct (@step_bounds_face_away_from_the_threshold specIntervalUtils
              fiveProps fiveSteps fivePolicy eq_refl fiveSteps_Contiguous
              fiveSteps_InnerBoundsFilled fiveSteps_Ordered eq_refl) as [Hlo _].
  eexists. split; [reflexivity|]. split; [reflexivity|].
  apply Forall_forall. intros adj Hadj.
  apply Forall_forall. intros z Hz.
  by apply (Hlo _ adj z eq_refl).
Defined.

Lemma foreign_character_witness :
  ∃ message, apigateway.validateResourcePathPart "foo/" = Throw (Error message).
Proof.
  apply (foreign_character_rejected "foo/" "/"); try done.
  simpl. repeat (first [left; reflexivity | right]).
Defined.

Lemma notification_idempotent_witness :
  ∃ d q',
    @sqs.asBucketNotificationDestination _ sqs.openKey
      "arn:aws:s3:::photos" "Photos" freshQueue = (Return d, q') ∧
    @sqs.asBucketNotificationDestination _ sqs.openKey
      "arn:aws:s3:::other" "Photos" q' = (Return d, q').
Proof.
  eexists _, _. split; [reflexivity|].
  exact (@notification_is_idempotent _ sqs.openKey "arn:aws:s3:::photos"
           "arn:aws:s3:::other" "Photos" freshQueue _ _ eq_refl).
Defined.

Lemma one_statement_per_bucket_witness :
  ∃ q',
    @sqs.notifyAll _ sqs.openKey
      [ ("arn:aws:s3:::photos", "Photos"); ("arn:aws:s3:::logs", "Logs");
        ("arn:aws:s3:::photos", "Photos") ] freshQueue = Return q' ∧
    length (sqs.statements q') = size (sqs.notifyingBuckets q') ∧
    length (sqs.statements q') = 2.
Proof.
  eexists. split; [reflexivity|].
  split; [|reflexivity].
  by apply (@one_statement_per_bucket _ sqs.openKey
              [ ("arn:aws:s3:::photos", "Photos"); ("arn:aws:s3:::logs", "Logs");
                ("arn:aws:s3:::photos", "Photos") ] freshQueue).
Defined.

Lemma refused_key_witness :
  let q' := @sqs.calls _ sqs.closedKey
              (replicate 3 (sqs.CallAsBucketNotificationDestination
                              "arn:aws:s3:::photos" "Photos")) lockedQueue in
  sqs.notifyingBuckets q' = ∅ ∧ length (sqs.statements q') = 3.
Proof.
  destruct (@refused_key_repeats_the_statement _ sqs.closedKey
              "arn:aws:s3:::photos" "Photos" lockedQueue tt
              (Error "Unable to add statement") 3 eq_refl eq_refl)
    as (_ & Hbuckets & Hstatements).
  - simpl. apply not_elem_of_empty.
  - by left.
  - intros q'. split; [exact Hbuckets|].
    subst q'. by rewrite Hstatements.
Defined.
